(** * Pointer gesture recognizers of gio (package [gesture])

    A shallow embedding of [gesture/gesture.go]: the Click, Drag and Scroll
    recognizers as step functions over explicit state records, folded over
    the events a frame delivers, and the [String] methods of the enumerated
    types.  Go's [int] and [time.Duration] are 64-bit two's complement
    integers, modelled as [Z] with the wrap-around written out; [float32] is
    IEEE 754 binary32, modelled by [SpecFloat] at precision 24. *)

From Stdlib Require Import ZArith List Bool Lia String QArith Qabs.
From Stdlib Require Import Floats.SpecFloat.
Import ListNotations.
Open Scope Z_scope.

(** ** Go's [int] (64 bits) and [time.Duration] ([int64]) *)

Module GoInt.

Definition min_int : Z := - 2 ^ 63.
Definition max_int : Z := 2 ^ 63 - 1.

Definition in_range (z : Z) : Prop := min_int <= z <= max_int.

(** Two's complement wrap-around of a mathematical result. *)
Definition wrap (z : Z) : Z := (z + 2 ^ 63) mod 2 ^ 64 - 2 ^ 63.

Definition add (a b : Z) : Z := wrap (a + b).
Definition sub (a b : Z) : Z := wrap (a - b).
Definition mul (a b : Z) : Z := wrap (a * b).
Definition neg (a : Z) : Z := wrap (- a).

End GoInt.

(** ** [time.Duration]: nanoseconds in an [int64] *)

Module time.

Definition Duration := Z.
Definition Nanosecond : Duration := 1.
Definition Millisecond : Duration := 1000000 * Nanosecond.

End time.

(** ** [float32] *)

Module F32.

Definition prec : Z := 24.
Definition emax : Z := 128.

Definition t := spec_float.

Definition zero : t := S754_zero false.
Definition add : t -> t -> t := SFadd prec emax.
Definition sub : t -> t -> t := SFsub prec emax.
Definition mul : t -> t -> t := SFmul prec emax.
Definition div : t -> t -> t := SFdiv prec emax.
Definition neg : t -> t := SFopp.
Definition ltb : t -> t -> bool := SFltb.
Definition leb : t -> t -> bool := SFleb.
Definition eqb : t -> t -> bool := SFeqb.

(** The finite values of the format have a canonical mantissa and
    exponent; what the operations return is of that form. *)
Definition valid (x : t) : bool := valid_binary prec emax x.

(** [float32(n)] for an integer [n]: rounded to nearest, ties to even. *)
Definition of_int (n : Z) : t := binary_normalize prec emax n 0 false.

(** The decimal literal [n/d] as a [float32] constant (correctly rounded,
    since both [n] and [d] are small enough to be exact). *)
Definition of_ratio (n d : Z) : t := div (of_int n) (of_int d).

(** Magnitude [m * 2^e] cut to an integer, towards zero. *)
Definition mag_trunc (m : positive) (e : Z) : Z :=
  match e with
  | Zneg k => Z.shiftr (Zpos m) (Zpos k)
  | _ => Z.shiftl (Zpos m) e
  end.

(** Magnitude [m * 2^e] rounded to the nearest integer, halves upwards
    ([math.Round] rounds half away from zero). *)
Definition mag_round (m : positive) (e : Z) : Z :=
  match e with
  | Zneg k => (Z.shiftr (Zpos m) (Zpos k - 1) + 1) / 2
  | _ => Z.shiftl (Zpos m) e
  end.

(** The integer part of a finite value; [None] for NaN and infinities. *)
Definition trunc (x : t) : option Z :=
  match x with
  | S754_zero _ => Some 0
  | S754_finite s m e => Some (cond_Zopp s (mag_trunc m e))
  | _ => None
  end.

Definition round (x : t) : option Z :=
  match x with
  | S754_zero _ => Some 0
  | S754_finite s m e => Some (cond_Zopp s (mag_round m e))
  | _ => None
  end.

(** The exact rational value of a finite float (0 for the others). *)
Definition to_Q (x : t) : Q :=
  match x with
  | S754_finite s m e =>
      match e with
      | Zneg k => Qmake (cond_Zopp s (Zpos m)) (2 ^ k)
      | _ => inject_Z (cond_Zopp s (Z.shiftl (Zpos m) e))
      end
  | _ => 0%Q
  end.

Section Conversion.
(** The Go specification leaves the result of converting a float that the
    integer type cannot represent (NaN, infinities, out of range)
    implementation-dependent; [unrepresentable] is what the platform
    yields. *)
Variable unrepresentable : t -> Z.

Definition clamp (x : t) (r : option Z) : Z :=
  match r with
  | Some z =>
      if (GoInt.min_int <=? z) && (z <=? GoInt.max_int) then z
      else unrepresentable x
  | None => unrepresentable x
  end.

(** [int(x)] *)
Definition to_int (x : t) : Z := clamp x (trunc x).

(** [int(math.Round(float64(x)))]; widening to [float64] is exact. *)
Definition round_to_int (x : t) : Z := clamp x (round x).
End Conversion.

End F32.

(** ** Package [f32] and [image]: points *)

Module f32.
Record Point := Pt { X : F32.t; Y : F32.t }.
Definition Sub (p q : Point) : Point :=
  Pt (F32.sub (X p) (X q)) (F32.sub (Y p) (Y q)).
End f32.

Module image.
Record Point := Pt { X : Z; Y : Z }.
End image.

(** ** Package [io/pointer] *)

Module pointer.

(** Modelled from the spec: the event kinds of the pointer package, whose
    source is not part of the files at hand (data model, "Pointer Event"). *)
Inductive Kind := Cancel | Press | Release | Move | Drag | Enter | Leave | Scroll.

(** Modelled from the spec: the sources of a pointer event; [Mouse] is the
    zero value. *)
Inductive Source := Mouse | Touch | Pen.

(** Modelled from the spec: the priority tiers, ordered, [Grabbed] highest. *)
Inductive Priority := Normal | Grabbed.

Definition Priority_rank (p : Priority) : Z :=
  match p with Normal => 0 | Grabbed => 1 end.

Definition Priority_ltb (p q : Priority) : bool :=
  Priority_rank p <? Priority_rank q.

Definition ID := N.
Definition Buttons := N.

(** Modelled from the spec: the bit of the primary button in the button
    bitset. *)
Definition ButtonPrimary : Buttons := 1%N.

Definition Modifiers := N.

Record Event := {
  Kind_ : Kind;
  Source_ : Source;
  PointerID : ID;
  Priority_ : Priority;
  Time : time.Duration;
  Buttons_ : Buttons;
  Position : f32.Point;
  Scroll_ : f32.Point;
  Modifiers_ : Modifiers
}.

Definition Source_eqb (a b : Source) : bool :=
  match a, b with
  | Mouse, Mouse | Touch, Touch | Pen, Pen => true
  | _, _ => false
  end.

End pointer.

(** ** Package [io/event]: what a queue hands out *)

Module event.
(** An event is a pointer event or something else (key, focus, ...); the
    recognizers skip whatever is not a [pointer.Event]. *)
Inductive Event :=
| Pointer (e : pointer.Event)
| Other.
End event.

(** The pointer events among what a queue returns, in order. *)
Fixpoint pointer_events (q : list event.Event) : list pointer.Event :=
  match q with
  | [] => []
  | event.Pointer e :: q' => e :: pointer_events q'
  | event.Other :: q' => pointer_events q'
  end.

(** ** Package [internal/fling]: what an estimate holds *)

Module fling.
Record Estimate := { Velocity : F32.t; Distance : F32.t }.
End fling.

(** ** What the recognizers use from packages whose source is not at hand *)

Class Externals := {
  (** [unit.Metric] and its method [Dp]; a [unit.Dp] is a [float32]. *)
  Metric : Type;
  Dp : Metric -> F32.t -> Z;
  (** [f32.Point.Round] *)
  Round : f32.Point -> image.Point;
  (** [time.Time], the time of a frame *)
  Time : Type;
  (** [fling.Extrapolation], the velocity estimator: its zero value and its
      methods, which have pointer receivers and so may update it. *)
  Extrapolation : Type;
  Extrapolation_zero : Extrapolation;
  Sample : Extrapolation -> time.Duration -> F32.t -> Extrapolation;
  Estimate : Extrapolation -> fling.Estimate * Extrapolation;
  (** [fling.Animation], the fling animator, likewise. *)
  Animation : Type;
  Animation_zero : Animation;
  Start : Animation -> Metric -> Time -> F32.t -> Animation;
  Tick : Animation -> Time -> Z * Animation;
  Active : Animation -> bool;
  (** [runtime.GOOS] *)
  GOOS : string;
  (** What the platform yields for a float-to-int conversion whose value
      the integer type cannot represent. *)
  unrepresentable : F32.t -> Z
}.

(** ** Package [gesture]: enumerated types and constants *)

Definition Axis := N.
Definition Horizontal : Axis := 0%N.
Definition Vertical : Axis := 1%N.
Definition Both : Axis := 2%N.

Definition ClickKind := N.
Definition KindPress : ClickKind := 0%N.
Definition KindClick : ClickKind := 1%N.
Definition KindCancel : ClickKind := 2%N.

Definition ScrollState := N.
Definition StateIdle : ScrollState := 0%N.
Definition StateDragging : ScrollState := 1%N.
Definition StateFlinging : ScrollState := 2%N.

(** [200 * time.Millisecond] *)
Definition doubleClickDuration : time.Duration := 200 * time.Millisecond.

(** [unit.Dp(3)]; [unit.Dp] is a [float32]. *)
Definition touchSlop : F32.t := F32.of_int 3.

(** A call either returns or panics with a message. *)
Inductive outcome (A : Type) :=
| Returns (a : A)
| Panics (msg : string).
Arguments Returns {A} a.
Arguments Panics {A} msg.

Definition Axis_String (a : Axis) : outcome string :=
  match a with
  | 0%N => Returns "Horizontal"%string
  | 1%N => Returns "Vertical"%string
  | _ => Panics "invalid Axis"%string
  end.

Definition ClickKind_String (ct : ClickKind) : outcome string :=
  match ct with
  | 0%N => Returns "TypePress"%string
  | 1%N => Returns "TypeClick"%string
  | 2%N => Returns "TypeCancel"%string
  | _ => Panics "invalid ClickType"%string
  end.

Definition ScrollState_String (s : ScrollState) : outcome string :=
  match s with
  | 0%N => Returns "StateIdle"%string
  | 1%N => Returns "StateDragging"%string
  | 2%N => Returns "StateFlinging"%string
  | _ => Panics "unreachable"%string
  end.

(** The declared constants of each enumeration. *)
Definition valid_Axis (a : Axis) : Prop :=
  a = Horizontal \/ a = Vertical \/ a = Both.

Definition valid_ClickKind (k : ClickKind) : Prop :=
  k = KindPress \/ k = KindClick \/ k = KindCancel.

(** [ClickEvent] *)
Record ClickEvent := {
  Kind : ClickKind;
  Position : image.Point;
  Source : pointer.Source;
  Modifiers : pointer.Modifiers;
  NumClicks : Z
}.

(** [ClickEvent{Kind: k}]: the other fields keep their zero values. *)
Definition ClickEvent_of_kind (k : ClickKind) : ClickEvent :=
  {| Kind := k; Position := image.Pt 0 0; Source := pointer.Mouse;
     Modifiers := 0%N; NumClicks := 0 |}.

(** ** The Click recognizer *)

Module Click.

Record t := {
  clickedAt : time.Duration;
  clicks : Z;
  pressed : bool;
  hovered : bool;
  entered : bool;
  pid : pointer.ID
}.

(** The zero value of the struct. *)
Definition zero : t :=
  {| clickedAt := 0; clicks := 0; pressed := false; hovered := false;
     entered := false; pid := 0%N |}.

Definition Hovered (c : t) : bool := hovered c.
Definition Pressed (c : t) : bool := pressed c.

Definition set_pid (c : t) (p : pointer.ID) : t :=
  {| clickedAt := clickedAt c; clicks := clicks c; pressed := pressed c;
     hovered := hovered c; entered := entered c; pid := p |}.

Section Update.
Context {ext : Externals}.

(** One iteration of the loop body of [Update] on a pointer event: the
    new state and the events appended. *)
Definition handle (c : t) (e : pointer.Event) : t * list ClickEvent :=
  match pointer.Kind_ e with
  | pointer.Release =>
      if negb (pressed c) || negb (pid c =? pointer.PointerID e)%N then (c, [])
      else
        let c1 := {| clickedAt := clickedAt c; clicks := clicks c;
                     pressed := false; hovered := hovered c;
                     entered := entered c; pid := pid c |} in
        if negb (entered c1) || hovered c1 then
          (c1, [ {| Kind := KindClick;
                    Position := Round (pointer.Position e);
                    Source := pointer.Source_ e;
                    Modifiers := pointer.Modifiers_ e;
                    NumClicks := clicks c1 |} ])
        else (c1, [ ClickEvent_of_kind KindCancel ])
  | pointer.Cancel =>
      let wasPressed := pressed c in
      let c1 := {| clickedAt := clickedAt c; clicks := clicks c;
                   pressed := false; hovered := false;
                   entered := false; pid := pid c |} in
      if wasPressed then (c1, [ ClickEvent_of_kind KindCancel ])
      else (c1, [])
  | pointer.Press =>
      if pressed c then (c, [])
      else if pointer.Source_eqb (pointer.Source_ e) pointer.Mouse
              && negb (pointer.Buttons_ e =? pointer.ButtonPrimary)%N
      then (c, [])
      else
        let c1 := if negb (hovered c) then set_pid c (pointer.PointerID e) else c in
        if negb (pid c1 =? pointer.PointerID e)%N then (c1, [])
        else
          let n :=
            if GoInt.sub (pointer.Time e) (clickedAt c1) <? doubleClickDuration
            then GoInt.add (clicks c1) 1
            else 1 in
          let c2 := {| clickedAt := pointer.Time e; clicks := n;
                       pressed := true; hovered := hovered c1;
                       entered := entered c1; pid := pid c1 |} in
          (c2, [ {| Kind := KindPress;
                    Position := Round (pointer.Position e);
                    Source := pointer.Source_ e;
                    Modifiers := pointer.Modifiers_ e;
                    NumClicks := clicks c2 |} ])
  | pointer.Leave =>
      let c1 := if negb (pressed c) then set_pid c (pointer.PointerID e) else c in
      if (pid c1 =? pointer.PointerID e)%N then
        ({| clickedAt := clickedAt c1; clicks := clicks c1;
            pressed := pressed c1; hovered := false;
            entered := entered c1; pid := pid c1 |}, [])
      else (c1, [])
  | pointer.Enter =>
      let c1 := if negb (pressed c) then set_pid c (pointer.PointerID e) else c in
      if (pid c1 =? pointer.PointerID e)%N then
        ({| clickedAt := clickedAt c1; clicks := clicks c1;
            pressed := pressed c1; hovered := true;
            entered := true; pid := pid c1 |}, [])
      else (c1, [])
  | _ => (c, [])
  end.

(** The [for] loop of [Update] over what the queue returns, appending to
    [events]. *)
Fixpoint loop (c : t) (q : list event.Event) (events : list ClickEvent)
  : t * list ClickEvent :=
  match q with
  | [] => (c, events)
  | event.Other :: q' => loop c q' events
  | event.Pointer e :: q' =>
      let '(c', out) := handle c e in
      loop c' q' (events ++ out)
  end.

Definition Update (c : t) (q : list event.Event) : t * list ClickEvent :=
  loop c q [].
End Update.

End Click.

(** ** The Drag recognizer *)

Module Drag.

Record t := {
  dragging : bool;
  pressed : bool;
  pid : pointer.ID;
  start : f32.Point;
  grab : bool
}.

Definition zero : t :=
  {| dragging := false; pressed := false; pid := 0%N;
     start := f32.Pt F32.zero F32.zero; grab := false |}.

Definition Dragging (d : t) : bool := dragging d.
Definition Pressed (d : t) : bool := pressed d.

Definition set_pressed (d : t) (b : bool) : t :=
  {| dragging := dragging d; pressed := b; pid := pid d;
     start := start d; grab := grab d |}.

Definition set_grab (d : t) (b : bool) : t :=
  {| dragging := dragging d; pressed := pressed d; pid := pid d;
     start := start d; grab := b |}.

Definition set_Position (e : pointer.Event) (p : f32.Point) : pointer.Event :=
  {| pointer.Kind_ := pointer.Kind_ e;
     pointer.Source_ := pointer.Source_ e;
     pointer.PointerID := pointer.PointerID e;
     pointer.Priority_ := pointer.Priority_ e;
     pointer.Time := pointer.Time e;
     pointer.Buttons_ := pointer.Buttons_ e;
     pointer.Position := p;
     pointer.Scroll_ := pointer.Scroll_ e;
     pointer.Modifiers_ := pointer.Modifiers_ e |}.

(** The [switch axis] of the [pointer.Drag] case: the coordinate across the
    axis is overwritten with that of the start position. *)
Definition pin (axis : Axis) (st p : f32.Point) : f32.Point :=
  match axis with
  | 0%N => f32.Pt (f32.X p) (f32.Y st)
  | 1%N => f32.Pt (f32.X st) (f32.Y p)
  | _ => p
  end.

(** [diff.X*diff.X + diff.Y*diff.Y] for [diff := p.Sub(st)], each product
    and the sum rounded on its own (no fused multiply-add). *)
Definition sq_dist (p st : f32.Point) : F32.t :=
  let diff := f32.Sub p st in
  F32.add (F32.mul (f32.X diff) (f32.X diff)) (F32.mul (f32.Y diff) (f32.Y diff)).

(** [float32(slop*slop)] *)
Definition sq_slop (slop : Z) : F32.t := F32.of_int (GoInt.mul slop slop).

(** A Release or Cancel of the pointer that [d] tracks. *)
Definition ends_gesture (d : t) (e : pointer.Event) : bool :=
  match pointer.Kind_ e with
  | pointer.Release | pointer.Cancel => (pointer.PointerID e =? pid d)%N
  | _ => false
  end.

(** A Drag of the pointer that [d] tracks, with priority below Grabbed. *)
Definition below_grabbed (d : t) (e : pointer.Event) : bool :=
  match pointer.Kind_ e with pointer.Drag => true | _ => false end
  && (pointer.PointerID e =? pid d)%N
  && pointer.Priority_ltb (pointer.Priority_ e) pointer.Grabbed.

(** The squared distance the Drag case computes for [e]: from the start
    position to the position of [e] after the axis switch. *)
Definition displacement (axis : Axis) (d : t) (e : pointer.Event) : F32.t :=
  sq_dist (pin axis (start d) (pointer.Position e)) (start d).

Section Update.
Context {ext : Externals}.

(** One iteration of the loop body on a pointer event: the new state and
    what is appended to [events] (nothing on [continue]). *)
Definition handle (cfg : Metric) (axis : Axis) (d : t) (e : pointer.Event)
  : t * list pointer.Event :=
  match pointer.Kind_ e with
  | pointer.Press =>
      if negb ((pointer.Buttons_ e =? pointer.ButtonPrimary)%N
               || pointer.Source_eqb (pointer.Source_ e) pointer.Touch)
      then (d, [])
      else
        let d1 := set_pressed d true in
        if dragging d1 then (d1, [])
        else
          ({| dragging := true; pressed := pressed d1;
              pid := pointer.PointerID e;
              start := pointer.Position e; grab := grab d1 |}, [e])
  | pointer.Drag =>
      if negb (dragging d) || negb (pointer.PointerID e =? pid d)%N then (d, [])
      else
        let e1 := set_Position e (pin axis (start d) (pointer.Position e)) in
        let d1 :=
          if pointer.Priority_ltb (pointer.Priority_ e1) pointer.Grabbed then
            let slop := Dp cfg touchSlop in
            if F32.ltb (sq_slop slop) (sq_dist (pointer.Position e1) (start d))
            then set_grab d true
            else d
          else d in
        (d1, [e1])
  | pointer.Release | pointer.Cancel =>
      let d1 := set_pressed d false in
      if negb (dragging d1) || negb (pointer.PointerID e =? pid d1)%N then (d1, [])
      else
        ({| dragging := false; pressed := pressed d1; pid := pid d1;
            start := start d1; grab := false |}, [e])
  | _ => (d, [e])
  end.

Fixpoint loop (cfg : Metric) (axis : Axis) (d : t) (q : list event.Event)
  (events : list pointer.Event) : t * list pointer.Event :=
  match q with
  | [] => (d, events)
  | event.Other :: q' => loop cfg axis d q' events
  | event.Pointer e :: q' =>
      let '(d', out) := handle cfg axis d e in
      loop cfg axis d' q' (events ++ out)
  end.

Definition Update (cfg : Metric) (q : list event.Event) (axis : Axis) (d : t)
  : t * list pointer.Event :=
  loop cfg axis d q [].
End Update.

End Drag.

(** ** The Scroll recognizer *)

Module Scroll.

Section Update.
Context {ext : Externals}.

Record t := {
  dragging : bool;
  axis : Axis;
  estimator : Extrapolation;
  flinger : Animation;
  pid : pointer.ID;
  grab : bool;
  last : Z;
  scroll : F32.t
}.

Definition zero : t :=
  {| dragging := false; axis := Horizontal; estimator := Extrapolation_zero;
     flinger := Animation_zero; pid := 0%N; grab := false; last := 0;
     scroll := F32.zero |}.

Definition set_axis (s : t) (a : Axis) : t :=
  {| dragging := dragging s; axis := a; estimator := estimator s;
     flinger := flinger s; pid := pid s; grab := grab s; last := last s;
     scroll := scroll s |}.

Definition set_flinger (s : t) (f : Animation) : t :=
  {| dragging := dragging s; axis := axis s; estimator := estimator s;
     flinger := f; pid := pid s; grab := grab s; last := last s;
     scroll := scroll s |}.

Definition set_estimator (s : t) (x : Extrapolation) : t :=
  {| dragging := dragging s; axis := axis s; estimator := x;
     flinger := flinger s; pid := pid s; grab := grab s; last := last s;
     scroll := scroll s |}.

Definition set_grab (s : t) (b : bool) : t :=
  {| dragging := dragging s; axis := axis s; estimator := estimator s;
     flinger := flinger s; pid := pid s; grab := b; last := last s;
     scroll := scroll s |}.

Definition set_last (s : t) (v : Z) : t :=
  {| dragging := dragging s; axis := axis s; estimator := estimator s;
     flinger := flinger s; pid := pid s; grab := grab s; last := v;
     scroll := scroll s |}.

Definition set_scroll (s : t) (x : F32.t) : t :=
  {| dragging := dragging s; axis := axis s; estimator := estimator s;
     flinger := flinger s; pid := pid s; grab := grab s; last := last s;
     scroll := x |}.

(** The shared tail of the [Release] and [Cancel] cases. *)
Definition end_drag (s : t) : t :=
  {| dragging := false; axis := axis s; estimator := estimator s;
     flinger := flinger s; pid := pid s; grab := false; last := last s;
     scroll := scroll s |}.

(** [Stop] *)
Definition Stop (s : t) : t := set_flinger s Animation_zero.

(** [val]: the coordinate along the axis. *)
Definition val (s : t) (p : f32.Point) : F32.t :=
  if (axis s =? Horizontal)%N then f32.X p else f32.Y p.

(** The wheel accumulator after adding the delta of the configured axis. *)
Definition wheel_acc (s : t) (e : pointer.Event) : F32.t :=
  match axis s with
  | 0%N => F32.add (scroll s) (f32.X (pointer.Scroll_ e))
  | 1%N => F32.add (scroll s) (f32.Y (pointer.Scroll_ e))
  | _ => scroll s
  end.

(** The wheel delta along an axis. *)
Definition axis_delta (a : Axis) (e : pointer.Event) : F32.t :=
  if (a =? Horizontal)%N then f32.X (pointer.Scroll_ e)
  else f32.Y (pointer.Scroll_ e).

(** The wheel accumulator in the words of the specification: each delta is
    added to the carried remainder, the integer part of the sum (cut
    towards zero) is given out, and what is left is carried on.  The
    result is the outputs in order and the final remainder. *)
Fixpoint accumulate (rem : F32.t) (deltas : list F32.t) : list Z * F32.t :=
  match deltas with
  | [] => ([], rem)
  | delta :: rest =>
      let sum := F32.add rem delta in
      let n := F32.to_int unrepresentable sum in
      let '(outs, r) := accumulate (F32.sub sum (F32.of_int n)) rest in
      (n :: outs, r)
  end.

(** [d < -slop || d > slop] of the [Release] case *)
Definition fling_exceeds (cfg : Metric) (est : fling.Estimate) : bool :=
  let slop := F32.of_int (Dp cfg touchSlop) in
  let d := fling.Distance est in
  F32.ltb d (F32.neg slop) || F32.ltb slop d.

(** [dist >= slop || -slop >= dist] of the [Drag] case *)
Definition drag_exceeds (cfg : Metric) (dist : Z) : bool :=
  let slop := Dp cfg touchSlop in
  (dist >=? slop) || (GoInt.neg slop >=? dist).

(** One iteration of the loop body on a pointer event: the new state and
    what is added to [total]. *)
Definition handle (cfg : Metric) (now : Time) (s : t) (e : pointer.Event)
  : t * Z :=
  match pointer.Kind_ e with
  | pointer.Press =>
      if dragging s then (s, 0)
      else if negb (pointer.Source_eqb (pointer.Source_ e) pointer.Touch)
              && negb (String.eqb GOOS "android")
      then (s, 0)
      else
        let s1 := Stop s in
        let v := val s1 (pointer.Position e) in
        ({| dragging := true; axis := axis s1;
            estimator := Sample Extrapolation_zero (pointer.Time e) v;
            flinger := flinger s1; pid := pointer.PointerID e;
            grab := grab s1;
            last := F32.round_to_int unrepresentable v;
            scroll := scroll s1 |}, 0)
  | pointer.Release =>
      if negb (pid s =? pointer.PointerID e)%N then (s, 0)
      else
        let '(est, x) := Estimate (estimator s) in
        let s1 := set_estimator s x in
        let s2 :=
          if fling_exceeds cfg est
          then set_flinger s1 (Start (flinger s1) cfg now (fling.Velocity est))
          else s1 in
        (end_drag s2, 0)
  | pointer.Cancel => (end_drag s, 0)
  | pointer.Scroll =>
      let acc := wheel_acc s e in
      let iscroll := F32.to_int unrepresentable acc in
      (set_scroll s (F32.sub acc (F32.of_int iscroll)), iscroll)
  | pointer.Drag =>
      if negb (dragging s) || negb (pid s =? pointer.PointerID e)%N then (s, 0)
      else
        let val_ := val s (pointer.Position e) in
        let s1 := set_estimator s (Sample (estimator s) (pointer.Time e) val_) in
        let v := F32.round_to_int unrepresentable val_ in
        let dist := GoInt.sub (last s1) v in
        if pointer.Priority_ltb (pointer.Priority_ e) pointer.Grabbed then
          if drag_exceeds cfg dist then (set_grab s1 true, 0) else (s1, 0)
        else (set_last s1 v, dist)
  | _ => (s, 0)
  end.

Fixpoint loop (cfg : Metric) (now : Time) (s : t) (q : list event.Event)
  (total : Z) : t * Z :=
  match q with
  | [] => (s, total)
  | event.Other :: q' => loop cfg now s q' total
  | event.Pointer e :: q' =>
      let '(s', n) := handle cfg now s e in
      loop cfg now s' q' (GoInt.add total n)
  end.

Definition Update (cfg : Metric) (q : list event.Event) (now : Time)
  (ax : Axis) (s : t) : t * Z :=
  if negb (axis s =? ax)%N then (set_axis s ax, 0)
  else
    let '(s1, total) := loop cfg now s q 0 in
    let '(n, f) := Tick (flinger s1) now in
    (set_flinger s1 f, GoInt.add total n).

Definition State (s : t) : ScrollState :=
  if Active (flinger s) then StateFlinging
  else if dragging s then StateDragging
  else StateIdle.

End Update.

End Scroll.

(** ** Concrete inputs used by the examples below *)

Module Examples.

(** Unrepresentable values become the least [int], as on amd64. *)
Definition least_int (_ : F32.t) : Z := GoInt.min_int.

(** [math.Round] on each coordinate, as the Scroll recognizer spells it
    out for one. *)
Definition round_point (p : f32.Point) : image.Point :=
  image.Pt (F32.round_to_int least_int (f32.X p))
           (F32.round_to_int least_int (f32.Y p)).

(** A small stand-in for the packages left open: a metric is its number of
    pixels per dp, an estimator keeps the first and the last sample and
    reports their difference as the distance, an animator is the velocity
    it was started with, and time is a number. *)
Definition first_last := option (F32.t * F32.t).

Definition sample (x : first_last) (_ : time.Duration) (v : F32.t) : first_last :=
  match x with
  | None => Some (v, v)
  | Some (a, _) => Some (a, v)
  end.

Definition estimate (x : first_last) : fling.Estimate * first_last :=
  match x with
  | None => ({| fling.Velocity := F32.zero; fling.Distance := F32.zero |}, x)
  | Some (a, b) =>
      ({| fling.Velocity := F32.sub b a; fling.Distance := F32.sub b a |}, x)
  end.

Definition plain : Externals :=
  {| Metric := Z;
     Dp := fun px v => F32.round_to_int least_int (F32.mul v (F32.of_int px));
     Round := round_point;
     Time := Z;
     Extrapolation := first_last;
     Extrapolation_zero := None;
     Sample := sample;
     Estimate := estimate;
     Animation := option F32.t;
     Animation_zero := None;
     Start := fun _ _ _ v => Some v;
     Tick := fun a _ => (0, a);
     Active := fun a => match a with Some _ => true | None => false end;
     GOOS := "linux"%string;
     unrepresentable := least_int |}.

Definition origin : f32.Point := f32.Pt F32.zero F32.zero.

(** The point with the given integer coordinates. *)
Definition pt (x y : Z) : f32.Point := f32.Pt (F32.of_int x) (F32.of_int y).

(** A pointer event of the given kind, pointer id and time, from a touch
    source at the origin. *)
Definition touch (k : pointer.Kind) (id : pointer.ID) (tm : time.Duration)
  : pointer.Event :=
  {| pointer.Kind_ := k; pointer.Source_ := pointer.Touch;
     pointer.PointerID := id; pointer.Priority_ := pointer.Normal;
     pointer.Time := tm; pointer.Buttons_ := 0%N;
     pointer.Position := origin; pointer.Scroll_ := origin;
     pointer.Modifiers_ := 0%N |}.

(** The same at a position and with a priority. *)
Definition touch_at (k : pointer.Kind) (id : pointer.ID)
  (pr : pointer.Priority) (p : f32.Point) : pointer.Event :=
  {| pointer.Kind_ := k; pointer.Source_ := pointer.Touch;
     pointer.PointerID := id; pointer.Priority_ := pr;
     pointer.Time := 0; pointer.Buttons_ := 0%N;
     pointer.Position := p; pointer.Scroll_ := origin;
     pointer.Modifiers_ := 0%N |}.

(** A wheel event with the same delta on both axes. *)
Definition wheel (delta : F32.t) : pointer.Event :=
  {| pointer.Kind_ := pointer.Scroll; pointer.Source_ := pointer.Mouse;
     pointer.PointerID := 0%N; pointer.Priority_ := pointer.Normal;
     pointer.Time := 0; pointer.Buttons_ := 0%N;
     pointer.Position := origin; pointer.Scroll_ := f32.Pt delta delta;
     pointer.Modifiers_ := 0%N |}.

(** A Click recognizer that saw one full click of pointer 1 at time 0. *)
Definition clicked_once : Click.t :=
  {| Click.clickedAt := 0; Click.clicks := 1; Click.pressed := false;
     Click.hovered := false; Click.entered := false; Click.pid := 1%N |}.

(** A Click recognizer with pointer 1 pressed, entered and then gone. *)
Definition pressed_left : Click.t :=
  {| Click.clickedAt := 0; Click.clicks := 1; Click.pressed := true;
     Click.hovered := false; Click.entered := true; Click.pid := 1%N |}.

(** A Drag recognizer in a drag of pointer 1 that started at (10,10). *)
Definition dragging_from_10_10 : Drag.t :=
  {| Drag.dragging := true; Drag.pressed := true; Drag.pid := 1%N;
     Drag.start := pt 10 10; Drag.grab := false |}.

(** A Scroll recognizer of the stand-in, in a drag of pointer 1 along the
    horizontal axis, last seen at the given position. *)
Definition scrolling (at_ : Z) : Scroll.t (ext := plain) :=
  @Scroll.Build_t plain true Horizontal
    (Some (F32.of_int at_, F32.of_int at_)) None 1%N false at_ F32.zero.

(** A Scroll recognizer of the stand-in that is not dragging and still
    holds the samples of a finished drag of pointer 1 from 0 to 100. *)
Definition scrolled_before : Scroll.t (ext := plain) :=
  @Scroll.Build_t plain false Horizontal
    (Some (F32.of_int 0, F32.of_int 100)) None 1%N false 100 F32.zero.

(** A Scroll recognizer of the stand-in at rest. *)
Definition at_rest : Scroll.t (ext := plain) :=
  @Scroll.Build_t plain false Horizontal None None 0%N false 0 F32.zero.

(** The [float32] constant [0.3]. *)
Definition three_tenths : F32.t := F32.of_ratio 3 10.

End Examples.

(** * The rest of the package and its callers *)

(** ** The Hover recognizer *)

Module Hover.

Record t := {
  entered : bool;
  pid : pointer.ID
}.

Definition zero : t := {| entered := false; pid := 0%N |}.

(** The kinds [Add] registers for: [pointer.Enter | pointer.Leave]. *)
Definition Kinds : list pointer.Kind := [pointer.Enter; pointer.Leave].

(** One iteration of the loop body of [Update] on a pointer event. *)
Definition handle (h : t) (e : pointer.Event) : t :=
  match pointer.Kind_ e with
  | pointer.Leave | pointer.Cancel =>
      if entered h && (pid h =? pointer.PointerID e)%N
      then {| entered := false; pid := pid h |}
      else h
  | pointer.Enter =>
      let h1 := if negb (entered h)
                then {| entered := entered h; pid := pointer.PointerID e |}
                else h in
      if (pid h1 =? pointer.PointerID e)%N
      then {| entered := true; pid := pid h1 |}
      else h1
  | _ => h
  end.

Fixpoint loop (h : t) (q : list event.Event) : t :=
  match q with
  | [] => h
  | event.Other :: q' => loop h q'
  | event.Pointer e :: q' => loop (handle h e) q'
  end.

(** [Update]: the new state and the value returned. *)
Definition Update (h : t) (q : list event.Event) : t * bool :=
  let h' := loop h q in (h', entered h').

(** What the events of one pointer make of the hover flag: the last Enter,
    Leave or Cancel among them decides. *)
Definition last_word (b : bool) (es : list pointer.Event) : bool :=
  fold_left
    (fun b e =>
       match pointer.Kind_ e with
       | pointer.Enter => true
       | pointer.Leave | pointer.Cancel => false
       | _ => b
       end) es b.

End Hover.

(** ** What the other recognizers register for *)

(** The [Kinds] of the [pointer.InputOp] each [Add] method adds. *)
Module Registered.
Definition Click : list pointer.Kind :=
  [pointer.Press; pointer.Release; pointer.Enter; pointer.Leave].
Definition Scroll : list pointer.Kind :=
  [pointer.Press; pointer.Drag; pointer.Release; pointer.Scroll].
Definition Drag : list pointer.Kind :=
  [pointer.Press; pointer.Drag; pointer.Release].
End Registered.

(** ** Traces of click events *)

(** Whether a sequence of click events is one a recognizer can emit from a
    state that is pressed or not and holds a count: a KindPress comes only
    when not pressed and sets the count it carries, a KindClick only when
    pressed and with that count, a KindCancel only when pressed.  The
    result is whether the recognizer is pressed after the last event, and
    the count then. *)
Fixpoint click_trace (pressed : bool) (count : Z) (evs : list ClickEvent)
  : option (bool * Z) :=
  match evs with
  | [] => Some (pressed, count)
  | ev :: rest =>
      if (Kind ev =? KindPress)%N then
        if pressed then None else click_trace true (NumClicks ev) rest
      else if (Kind ev =? KindClick)%N then
        if pressed && (NumClicks ev =? count) then click_trace false count rest
        else None
      else if (Kind ev =? KindCancel)%N then
        if pressed then click_trace false count rest else None
      else None
  end.

(** ** Subsequences *)

(** [l1] is [l2] with some elements left out. *)
Inductive subseq {A : Type} : list A -> list A -> Prop :=
| subseq_nil : subseq [] []
| subseq_skip (x : A) (l1 l2 : list A) : subseq l1 l2 -> subseq l1 (x :: l2)
| subseq_keep (x : A) (l1 l2 : list A) : subseq l1 l2 -> subseq (x :: l1) (x :: l2).

(** ** Package [widget]: [Draggable] *)

Module Draggable.

(** What the queue returns for the handle of a [Draggable]: a
    [transfer.RequestEvent] with its type, or something else. *)
Inductive HandleEvent :=
| RequestEvent (Type_ : string)
| NoRequest.

Record t := {
  Type_ : string;
  drag : Drag.t;
  click : f32.Point;
  pos : f32.Point
}.

(** [f32.Point{}] *)
Definition Point_zero : f32.Point := f32.Pt F32.zero F32.zero.

Definition zero : t :=
  {| Type_ := ""%string; drag := Drag.zero; click := Point_zero;
     pos := Point_zero |}.

(** The body of the first loop of [Update], on [d.click] and the local
    [pos]. *)
Definition track (st : f32.Point * f32.Point) (ev : pointer.Event)
  : f32.Point * f32.Point :=
  match pointer.Kind_ ev with
  | pointer.Press => (pointer.Position ev, Point_zero)
  | pointer.Drag | pointer.Release =>
      (fst st, f32.Sub (pointer.Position ev) (fst st))
  | _ => st
  end.

(** The kinds the first loop of [Update] has a case for. *)
Definition tracked (ev : pointer.Event) : bool :=
  match pointer.Kind_ ev with
  | pointer.Press | pointer.Drag | pointer.Release => true
  | _ => false
  end.

(** The last event of a tracked kind, if there is one. *)
Fixpoint last_tracked (evs : list pointer.Event) : option pointer.Event :=
  match evs with
  | [] => None
  | ev :: rest =>
      match last_tracked rest with
      | Some x => Some x
      | None => if tracked ev then Some ev else None
      end
  end.

(** The second loop of [Update]: the first request decides. *)
Fixpoint requested (hq : list HandleEvent) : string * bool :=
  match hq with
  | [] => (""%string, false)
  | RequestEvent ty :: _ => (ty, true)
  | NoRequest :: rest => requested rest
  end.

Section Update.
Context {ext : Externals}.

(** [Update], for a context with the metric [cfg] and a queue (not nil:
    the method calls it) that returns [q] for the drag gesture and [hq] for
    the handle: the new state and the two results. *)
Definition Update (cfg : Metric) (q : list event.Event) (hq : list HandleEvent)
  (d : t) : t * (string * bool) :=
  let '(dr, evs) := Drag.Update cfg q Both (drag d) in
  let '(click', pos') := fold_left track evs (click d, pos d) in
  ({| Type_ := Type_ d; drag := dr; click := click'; pos := pos' |},
   requested hq).
End Update.

Definition Dragging (d : t) : bool := Drag.Dragging (drag d).
Definition Pos (d : t) : f32.Point := pos d.

End Draggable.

(** ** Package [widget]: [Enum] *)

Module Enum.

(** [key.State] *)
Inductive KeyState := KeyPress | KeyRelease.

(** What the queue returns for the tag of a key: a [key.FocusEvent], a
    [key.Event] with its name and state, or something else. *)
Inductive TagEvent :=
| FocusEvent (Focus : bool)
| KeyEvent (Name : string) (State : KeyState)
| OtherEvent.

Record enumKey := {
  key : string;
  click : Click.t
}.

Record t := {
  Value : string;
  hovered : string;
  hovering : bool;
  focus : string;
  focused : bool;
  keys : list enumKey
}.

Definition zero : t :=
  {| Value := ""%string; hovered := ""%string; hovering := false;
     focus := ""%string; focused := false; keys := [] |}.

(** The [layout.Context] as [Update] uses it: whether its [Queue] is nil,
    and what it returns for the click gesture and for the tag of the key
    at each position of [e.keys]. *)
Record Context := {
  Queue_nil : bool;
  click_events : nat -> list event.Event;
  tag_events : nat -> list TagEvent
}.

(** [index]: the first key named [k]. *)
Fixpoint index_from (ks : list enumKey) (k : string) : option enumKey :=
  match ks with
  | [] => None
  | v :: rest => if String.eqb (key v) k then Some v else index_from rest k
  end.

Definition index (e : t) (k : string) : option enumKey := index_from (keys e) k.

Definition Hovered (e : t) : string * bool := (hovered e, hovering e).
Definition Focused (e : t) : string * bool := (focus e, focused e).

(** What [Update] carries through its loops: the fields of the [Enum],
    [changed], and the positions of the keys a [key.FocusOp] was added
    for. *)
Record scan := {
  en : t;
  changed : bool;
  focus_ops : list nat
}.

Definition set_Value (e : t) (v : string) : t :=
  {| Value := v; hovered := hovered e; hovering := hovering e;
     focus := focus e; focused := focused e; keys := keys e |}.

Definition set_hover (e : t) (k : string) (b : bool) : t :=
  {| Value := Value e; hovered := k; hovering := b;
     focus := focus e; focused := focused e; keys := keys e |}.

Definition set_focus (e : t) (k : string) (b : bool) : t :=
  {| Value := Value e; hovered := hovered e; hovering := hovering e;
     focus := k; focused := b; keys := keys e |}.

Definition set_keys (e : t) (ks : list enumKey) : t :=
  {| Value := Value e; hovered := hovered e; hovering := hovering e;
     focus := focus e; focused := focused e; keys := ks |}.

(** [if state.key != e.Value { e.Value = state.key; changed = true }] *)
Definition choose (k : string) (sc : scan) : scan :=
  if negb (String.eqb k (Value (en sc)))
  then {| en := set_Value (en sc) k; changed := true; focus_ops := focus_ops sc |}
  else sc.

(** The body of the loop over the click events of the key [k] at
    position [i]. *)
Definition on_click (k : string) (i : nat) (sc : scan) (ev : ClickEvent) : scan :=
  if (Kind ev =? KindPress)%N then
    if pointer.Source_eqb (Source ev) pointer.Mouse
    then {| en := en sc; changed := changed sc;
            focus_ops := focus_ops sc ++ [i] |}
    else sc
  else if (Kind ev =? KindClick)%N then choose k sc
  else sc.

Section Update.
Context {ext : Externals}.
(** [key.NameReturn] and [key.NameSpace], from package [key]. *)
Variable NameReturn NameSpace : string.

(** The body of the loop over the events of the tag of the key [k]. *)
Definition on_tag (k : string) (sc : scan) (ev : TagEvent) : scan :=
  match ev with
  | FocusEvent f =>
      if f then
        {| en := set_focus (en sc) k true; changed := changed sc;
           focus_ops := focus_ops sc |}
      else if String.eqb k (focus (en sc)) then
        {| en := set_focus (en sc) (focus (en sc)) false;
           changed := changed sc; focus_ops := focus_ops sc |}
      else sc
  | KeyEvent name st =>
      if negb (focused (en sc))
         || negb (match st with KeyRelease => true | KeyPress => false end)
      then sc
      else if negb (String.eqb name NameReturn) && negb (String.eqb name NameSpace)
      then sc
      else choose k sc
  | OtherEvent => sc
  end.

(** The loop over [e.keys], from position [i] on: the keys with their
    click gestures updated, and what was carried through. *)
Fixpoint each_key (gtx : Context) (i : nat) (ks : list enumKey) (sc : scan)
  : list enumKey * scan :=
  match ks with
  | [] => ([], sc)
  | state :: rest =>
      let '(c, evs) := Click.Update (click state) (click_events gtx i) in
      let sc1 := fold_left (on_click (key state) i) evs sc in
      let sc2 := fold_left (on_tag (key state)) (tag_events gtx i) sc1 in
      let sc3 :=
        if Click.Hovered c
        then {| en := set_hover (en sc2) (key state) true;
                changed := changed sc2; focus_ops := focus_ops sc2 |}
        else sc2 in
      let '(rest', sc4) := each_key gtx (S i) rest sc3 in
      ({| key := key state; click := c |} :: rest', sc4)
  end.

(** [Update]: the new state, whether [Value] was set anew, and the
    positions of the keys focus was asked for. *)
Definition Update (gtx : Context) (e : t) : t * bool * list nat :=
  let e1 := if Queue_nil gtx then set_focus e (focus e) false else e in
  let e2 := set_hover e1 (hovered e1) false in
  let '(ks, sc) :=
    each_key gtx 0 (keys e2) {| en := e2; changed := false; focus_ops := [] |} in
  (set_keys (en sc) ks, changed sc, focus_ops sc).

(** What [Layout] does to the [Enum] for the key [k]: it updates, and
    adds the key with a fresh click gesture when [index] finds none.  (The
    operations it records are the caller's, and the content widget it
    calls in between is taken to leave the [Enum] alone.) *)
Definition Layout (gtx : Context) (e : t) (k : string) : t :=
  let e' := fst (fst (Update gtx e)) in
  match index e' k with
  | Some _ => e'
  | None => set_keys e' (keys e' ++ [ {| key := k; click := Click.zero |} ])
  end.
End Update.

End Enum.

(** An event with its position put to the origin, to compare events up to
    where they are. *)
Definition without_position (e : pointer.Event) : pointer.Event :=
  Drag.set_Position e Draggable.Point_zero.

(** What choosing keys among [names] makes of [changed] and [Value], from
    a value [V0]: no change leaves [V0], a change leaves one of the
    names. *)
Definition chosen_among (V0 : string) (names : list string) (sc : Enum.scan)
  : Prop :=
  (Enum.changed sc = false -> Enum.Value (Enum.en sc) = V0) /\
  (Enum.changed sc = true -> In (Enum.Value (Enum.en sc)) names).

(** Whether a click gesture reported a click. *)
Definition clicked (evs : list ClickEvent) : bool :=
  existsb (fun ev => (Kind ev =? KindClick)%N) evs.

(** Whether an event of a tag is a [key.Event]. *)
Definition is_key_event (ev : Enum.TagEvent) : bool :=
  match ev with Enum.KeyEvent _ _ => true | _ => false end.

Section LastClicked.
Context {ext : Externals}.

(** The name of the last key, in the order of [e.keys] from position [i]
    on, whose click gesture reports a click in this frame; [v] if there is
    none. *)
Fixpoint last_clicked (gtx : Enum.Context) (i : nat) (ks : list Enum.enumKey)
  (v : string) : string :=
  match ks with
  | [] => v
  | state :: rest =>
      last_clicked gtx (S i) rest
        (if clicked (snd (Click.Update (Enum.click state)
                            (Enum.click_events gtx i)))
         then Enum.key state else v)
  end.
End LastClicked.

(** ** Inputs for the widgets *)

Module WidgetExamples.

(** A press and a release of touch pointer 1. *)
Definition tap : list event.Event :=
  [event.Pointer (Examples.touch pointer.Press 1%N 0);
   event.Pointer (Examples.touch pointer.Release 1%N 0)].

(** A context in which every key is tapped. *)
Definition all_tapped : Enum.Context :=
  {| Enum.Queue_nil := false;
     Enum.click_events := fun _ => tap;
     Enum.tag_events := fun _ => [] |}.

(** A context without a queue. *)
Definition disabled : Enum.Context :=
  {| Enum.Queue_nil := true;
     Enum.click_events := fun _ => [];
     Enum.tag_events := fun _ => [] |}.

(** An [Enum] with the keys a and b, in this order, and the value b. *)
Definition a_b : Enum.t :=
  {| Enum.Value := "b"%string; Enum.hovered := ""%string;
     Enum.hovering := false; Enum.focus := "a"%string; Enum.focused := true;
     Enum.keys := [ {| Enum.key := "a"%string; Enum.click := Click.zero |};
                    {| Enum.key := "b"%string; Enum.click := Click.zero |} ] |}.

(** A pointer event of the given kind from the mouse, primary button
    down, at a position. *)
Definition mouse (k : pointer.Kind) (p : f32.Point) : pointer.Event :=
  {| pointer.Kind_ := k; pointer.Source_ := pointer.Mouse;
     pointer.PointerID := 0%N; pointer.Priority_ := pointer.Normal;
     pointer.Time := 0; pointer.Buttons_ := pointer.ButtonPrimary;
     pointer.Position := p; pointer.Scroll_ := Examples.origin;
     pointer.Modifiers_ := 0%N |}.

(** A Hover recognizer entered by pointer 1. *)
Definition entered_by_1 : Hover.t := {| Hover.entered := true; Hover.pid := 1%N |}.

End WidgetExamples.

(** ** Distances in real arithmetic *)

(** The squared Euclidean displacement of [p] from [st] in exact
    arithmetic, as the specification words it: no coordinate is replaced
    and nothing is rounded. *)
Definition exact_sq_displacement (st p : f32.Point) : Q :=
  let dx := (F32.to_Q (f32.X p) - F32.to_Q (f32.X st))%Q in
  let dy := (F32.to_Q (f32.Y p) - F32.to_Q (f32.Y st))%Q in
  (dx * dx + dy * dy)%Q.

(** The square of the slop, in exact arithmetic. *)
Definition exact_sq_slop (slop : Z) : Q := inject_Z (slop * slop).

(** The [float32] value 10 + 2^-12. *)
Definition just_above_10 : F32.t := F32.of_ratio 40961 4096.


(** * Properties *)

(** ** Integer wrap-around *)

Lemma wrap_in_range (z : Z) : GoInt.in_range z -> GoInt.wrap z = z.
Proof.
  unfold GoInt.in_range, GoInt.wrap, GoInt.min_int, GoInt.max_int.
  intros H. rewrite Z.mod_small by lia. lia.
Qed.

Lemma add_in_range (a b : Z) : GoInt.in_range (a + b) -> GoInt.add a b = a + b.
Proof. apply wrap_in_range. Qed.

Lemma sub_in_range (a b : Z) : GoInt.in_range (a - b) -> GoInt.sub a b = a - b.
Proof. apply wrap_in_range. Qed.

(** ** [float32]: conversions on a few values *)

(** [math.Round] rounds halves away from zero; [int] cuts towards zero. *)
Example f32_round_and_trunc :
  F32.round (F32.of_ratio 5 2) = Some 3 /\
  F32.round (F32.of_ratio (-5) 2) = Some (-3) /\
  F32.round (F32.of_ratio 12 5) = Some 2 /\
  F32.trunc (F32.of_ratio 7 2) = Some 3 /\
  F32.trunc (F32.of_ratio (-7) 2) = Some (-3) /\
  F32.trunc (F32.of_int 16777216) = Some 16777216 /\
  F32.of_int 16777217 = F32.of_int 16777216.
Proof. repeat split; vm_compute; reflexivity. Qed.

(** ** [float32]: exactness of cutting off the integer part *)

Lemma digits_log2 (p : positive) :
  Zpos (digits2_pos p) = Z.log2 (Zpos p) + 1.
Proof.
  induction p as [p IH | p IH |]; cbn [digits2_pos].
  - rewrite Pos2Z.inj_succ, IH.
    change (Zpos p~1) with (2 * Zpos p + 1).
    rewrite Z.log2_succ_double by lia. lia.
  - rewrite Pos2Z.inj_succ, IH.
    change (Zpos p~0) with (2 * Zpos p).
    rewrite Z.log2_double by lia. lia.
  - reflexivity.
Qed.

Lemma iter_xO_pow (m k : positive) :
  Zpos (Pos.iter xO m k) = Zpos m * 2 ^ Zpos k.
Proof.
  rewrite (Pos.iter_swap_gen _ _ Zpos xO (Z.mul 2)) by reflexivity.
  change (Pos.iter (Z.mul 2) (Zpos m) k) with (Z.shiftl (Zpos m) (Zpos k)).
  apply Z.shiftl_mul_pow2. lia.
Qed.

Lemma digits_iter_xO (m k : positive) :
  Zpos (digits2_pos (Pos.iter xO m k)) = Zpos (digits2_pos m) + Zpos k.
Proof.
  rewrite !digits_log2, iter_xO_pow, Z.log2_mul_pow2 by lia. lia.
Qed.

Lemma iter_shr_1_exact (k : positive) :
  forall m : positive,
    iter_pos shr_1 k (Build_shr_record (Zpos (Pos.iter xO m k)) false false)
    = Build_shr_record (Zpos m) false false.
Proof.
  induction k as [k IH | k IH |]; intros m; cbn [iter_pos Pos.iter].
  - cbn [shr_1 orb]. rewrite IH. apply IH.
  - rewrite IH. apply IH.
  - reflexivity.
Qed.

(** Rounding what is already a [float32] changes nothing. *)
Lemma binary_round_aux_canonical (s : bool) (m : positive) (e : Z) :
  bounded F32.prec F32.emax m e = true ->
  binary_round_aux F32.prec F32.emax s (Zpos m) e loc_Exact = S754_finite s m e.
Proof.
  unfold bounded, canonical_mantissa. intros B.
  apply andb_prop in B. destruct B as [C E].
  apply Z.eqb_eq in C.
  unfold binary_round_aux, shr_fexp.
  cbn [Zdigits2 shr_record_of_loc]. rewrite C, Z.sub_diag.
  cbn [shr shr_m loc_of_shr_record round_nearest_even Zdigits2 shr_record_of_loc].
  rewrite C, Z.sub_diag. cbn [shr shr_m]. rewrite E. reflexivity.
Qed.

(** Rounding [m * 2^e] when the mantissa has room to grow: it is shifted
    left to the canonical exponent. *)
Lemma binary_round_shl (s : bool) (m : positive) (e : Z) :
  let e' := fexp F32.prec F32.emax (Zpos (digits2_pos m) + e) in
  e' < e -> e' <= F32.emax - F32.prec ->
  binary_round F32.prec F32.emax s m e
  = S754_finite s (Pos.iter xO m (Z.to_pos (e - e'))) e'.
Proof.
  intros e' L U. unfold binary_round, shl_align. fold e'.
  destruct (e' - e) as [| d | d] eqn:D; try lia.
  assert (Hd : e - e' = Zpos d) by lia.
  rewrite Hd. cbn [Z.to_pos].
  apply binary_round_aux_canonical.
  unfold bounded, canonical_mantissa.
  rewrite digits_iter_xO.
  replace (Zpos (digits2_pos m) + Zpos d + e') with (Zpos (digits2_pos m) + e) by lia.
  fold e'. rewrite Z.eqb_refl. cbn [andb]. now apply Z.leb_le.
Qed.

(** [float32(m * 2^e)] for a [float32] of mantissa [m] and exponent
    [e > 0] is that float. *)
Lemma binary_round_integer (s : bool) (m p : positive) :
  bounded F32.prec F32.emax m (Zpos p) = true ->
  binary_round F32.prec F32.emax s (Pos.iter xO m p) 0 = S754_finite s m (Zpos p).
Proof.
  unfold bounded, canonical_mantissa. intros B.
  apply andb_prop in B. destruct B as [C E].
  apply Z.eqb_eq in C.
  unfold binary_round, shl_align.
  rewrite digits_iter_xO, Z.add_0_r, C. cbn [Z.sub Z.add Z.opp].
  unfold binary_round_aux, shr_fexp.
  cbn [Zdigits2 shr_record_of_loc].
  rewrite digits_iter_xO, Z.add_0_r, C, Z.sub_0_r.
  cbn [shr]. rewrite iter_shr_1_exact.
  cbn [shr_m loc_of_shr_record round_nearest_even Zdigits2 shr_record_of_loc].
  rewrite Z.add_0_l, C, Z.sub_diag. cbn [shr shr_m]. rewrite E. reflexivity.
Qed.

Lemma binary_round_canonical (s : bool) (m : positive) (e : Z) :
  bounded F32.prec F32.emax m e = true ->
  binary_round F32.prec F32.emax s m e = S754_finite s m e.
Proof.
  intros B. pose proof B as B'. unfold bounded, canonical_mantissa in B'.
  apply andb_prop in B'. destruct B' as [C _]. apply Z.eqb_eq in C.
  unfold binary_round, shl_align. rewrite C, Z.sub_diag.
  now apply binary_round_aux_canonical.
Qed.

(** [float32(n)] for [n = ±m]. *)
Lemma of_int_cond_Zopp (s : bool) (m : positive) :
  F32.of_int (cond_Zopp s (Zpos m)) = binary_round F32.prec F32.emax s m 0.
Proof. destruct s; reflexivity. Qed.

(** A finite float minus itself is zero. *)
Lemma sub_diag_finite (s : bool) (m : positive) (e : Z) :
  F32.sub (S754_finite s m e) (S754_finite s m e) = S754_zero false.
Proof.
  unfold F32.sub, SFsub. rewrite Z.sub_diag. reflexivity.
Qed.

(** A [float32] with a negative exponent and a non-zero integer part has a
    full mantissa. *)
Lemma bounded_normal (m k : positive) :
  bounded F32.prec F32.emax m (Zneg k) = true ->
  2 ^ Zpos k <= Zpos m ->
  Zpos (digits2_pos m) = 24 /\ Zpos k <= 23.
Proof.
  unfold bounded, canonical_mantissa, fexp, emin, F32.prec, F32.emax.
  intros B L. apply andb_prop in B. destruct B as [C _]. apply Z.eqb_eq in C.
  assert (Zpos k <= Z.log2 (Zpos m)) by (apply Z.log2_le_pow2; lia).
  rewrite digits_log2 in *. lia.
Qed.

Lemma Zpos_pow2 (k : positive) : Zpos (2 ^ k) = 2 ^ Zpos k.
Proof. apply Pos2Z.inj_pow. Qed.

(** The value of a finite float with a negative exponent. *)
Lemma to_Q_neg (s : bool) (m k : positive) :
  F32.to_Q (S754_finite s m (Zneg k)) = Qmake (cond_Zopp s (Zpos m)) (2 ^ k).
Proof. reflexivity. Qed.

(** The fraction left by cutting a [float32] with a negative exponent and
    a non-zero integer part: the subtraction is exact. *)
Lemma fraction_exact_neg (s : bool) (m k tp : positive) :
  bounded F32.prec F32.emax m (Zneg k) = true ->
  Z.shiftr (Zpos m) (Zpos k) = Zpos tp ->
  (F32.to_Q (F32.sub (S754_finite s m (Zneg k))
               (F32.of_int (cond_Zopp s (Zpos tp))))
   == Qmake (cond_Zopp s (Zpos m)) (2 ^ k) - inject_Z (cond_Zopp s (Zpos tp)))%Q.
Proof.
  intros B Ht.
  rewrite Z.shiftr_div_pow2 in Ht by lia.
  assert (P2 : 0 < 2 ^ Zpos k) by (apply Z.pow_pos_nonneg; lia).
  assert (L : 2 ^ Zpos k <= Zpos m).
  { destruct (Z.lt_ge_cases (Zpos m) (2 ^ Zpos k)) as [H | H]; [| exact H].
    rewrite Z.div_small in Ht by lia. discriminate. }
  destruct (bounded_normal m k B L) as [Dm Kk].
  assert (Dt : Zpos (digits2_pos tp) = 24 - Zpos k).
  { rewrite digits_log2 in *. rewrite <- Ht, <- Z.shiftr_div_pow2 by lia.
    rewrite Z.log2_shiftr by lia. lia. }
  assert (Et : fexp F32.prec F32.emax (Zpos (digits2_pos tp) + 0) = Zneg k).
  { unfold fexp, emin, F32.prec, F32.emax. rewrite Dt. lia. }
  rewrite of_int_cond_Zopp.
  rewrite binary_round_shl; rewrite Et; [| lia | unfold F32.emax, F32.prec; lia].
  cbn [Z.sub Z.opp Z.add Z.to_pos].
  unfold F32.sub, SFsub. rewrite Z.min_id. unfold shl_align.
  rewrite Z.sub_diag. cbn [fst].
  pose proof (iter_xO_pow tp k) as HT.
  pose proof (Z.div_mod (Zpos m) (2 ^ Zpos k) ltac:(lia)) as DM.
  pose proof (Z.mod_pos_bound (Zpos m) (2 ^ Zpos k) P2) as MB.
  rewrite Ht in DM.
  replace (cond_Zopp s (Zpos m) - cond_Zopp s (Zpos (Pos.iter xO tp k)))
    with (cond_Zopp s (Zpos m mod 2 ^ Zpos k))
    by (destruct s; cbn [cond_Zopp]; lia).
  destruct (Zpos m mod 2 ^ Zpos k) as [| fp | fn] eqn:F; [| | lia].
  - (* no fraction *)
    replace (cond_Zopp s 0) with 0 by (destruct s; reflexivity).
    cbn [binary_normalize F32.to_Q].
    unfold Qeq, Qminus, Qplus, Qopp, inject_Z. cbn [Qnum Qden].
    rewrite Pos.mul_1_r, Zpos_pow2.
    destruct s; cbn [cond_Zopp]; lia.
  - (* a fraction [fp / 2^k] *)
    replace (binary_normalize F32.prec F32.emax (cond_Zopp s (Zpos fp)) (Zneg k) false)
      with (binary_round F32.prec F32.emax s fp (Zneg k))
      by (destruct s; reflexivity).
    assert (Df : Zpos (digits2_pos fp) <= Zpos k).
    { rewrite digits_log2.
      assert (Z.log2 (Zpos fp) < Zpos k) by (apply Z.log2_lt_pow2; lia). lia. }
    remember (fexp F32.prec F32.emax (Zpos (digits2_pos fp) + Zneg k)) as e2 eqn:E2.
    assert (R2 : -149 <= e2 < Zneg k).
    { subst e2. unfold fexp, emin, F32.prec, F32.emax. lia. }
    rewrite binary_round_shl; rewrite <- E2;
      [| lia | unfold F32.emax, F32.prec; lia].
    destruct e2 as [| p2 | k2]; try lia.
    assert (Hd : Zpos (Z.to_pos (Zneg k - Zneg k2)) = Zpos k2 - Zpos k)
      by (rewrite Z2Pos.id; lia).
    rewrite to_Q_neg.
    unfold Qeq, Qminus, Qplus, Qopp, inject_Z. cbn [Qnum Qden].
    rewrite Pos.mul_1_r, !Zpos_pow2, iter_xO_pow, Hd.
    replace (2 ^ Zpos k2) with (2 ^ (Zpos k2 - Zpos k) * 2 ^ Zpos k)
      by (rewrite <- Z.pow_add_r by lia; f_equal; lia).
    destruct s; cbn [cond_Zopp]; nia.
Qed.

(** Cutting a [float32] to its integer part and subtracting that part, as
    the wheel case does, loses nothing: the result is exactly the fraction
    that is left. *)
Lemma fraction_exact (x : F32.t) (n : Z) :
  F32.valid x = true ->
  F32.trunc x = Some n ->
  (F32.to_Q (F32.sub x (F32.of_int n)) == F32.to_Q x - inject_Z n)%Q.
Proof.
  unfold F32.valid in *.
  intros V T. destruct x as [s | s | | s m e]; try discriminate T;
    cbn [F32.trunc] in T; injection T as <-.
  - destruct s; reflexivity.
  - cbn [valid_binary] in V. destruct e as [| p | k]; unfold F32.mag_trunc.
    + cbn [Z.shiftl]. rewrite of_int_cond_Zopp, binary_round_canonical by exact V.
      rewrite sub_diag_finite. cbn [F32.to_Q Z.shiftl].
      unfold Qeq, Qminus, Qplus, Qopp, inject_Z. cbn [Qnum Qden]. lia.
    + cbn [Z.shiftl].
      rewrite <- (Pos.iter_swap_gen _ _ Zpos xO (Z.mul 2)) by reflexivity.
      rewrite of_int_cond_Zopp, binary_round_integer by exact V.
      rewrite sub_diag_finite. cbn [F32.to_Q Z.shiftl].
      rewrite <- (Pos.iter_swap_gen _ _ Zpos xO (Z.mul 2)) by reflexivity.
      unfold Qeq, Qminus, Qplus, Qopp, inject_Z. cbn [Qnum Qden]. lia.
    + rewrite to_Q_neg.
      destruct (Z.shiftr (Zpos m) (Zpos k)) as [| tp | tn] eqn:Ht.
      * replace (cond_Zopp s 0) with 0 by (destruct s; reflexivity).
        cbn [F32.of_int binary_normalize F32.sub SFsub F32.to_Q].
        unfold Qeq, Qminus, Qplus, Qopp, inject_Z. cbn [Qnum Qden]. 
        rewrite Pos.mul_1_r. lia.
      * now apply fraction_exact_neg.
      * pose proof (proj2 (Z.shiftr_nonneg (Zpos m) (Zpos k)) ltac:(lia)). lia.
Qed.

(** *** Results of the operations are [float32] values *)

Lemma shr_1_m (r : shr_record) :
  0 <= shr_m r -> shr_m (shr_1 r) = Z.shiftr (shr_m r) 1.
Proof.
  destruct r as [m r s]. cbn [shr_m]. intros H.
  rewrite Z.shiftr_div_pow2 by lia. change (2 ^ 1) with 2.
  destruct m as [| [p | p |] | p]; cbn [shr_1 shr_m].
  - reflexivity.
  - change (Zpos p~1) with (2 * Zpos p + 1).
    apply Z.div_unique with 1; lia.
  - change (Zpos p~0) with (2 * Zpos p).
    apply Z.div_unique with 0; lia.
  - reflexivity.
  - lia.
Qed.

Lemma iter_shr_1_m (n : positive) :
  forall r : shr_record,
    0 <= shr_m r ->
    shr_m (iter_pos shr_1 n r) = Z.shiftr (shr_m r) (Zpos n).
Proof.
  induction n as [n IH | n IH |]; intros r H; cbn [iter_pos].
  - assert (H1 : 0 <= shr_m (shr_1 r))
      by (rewrite shr_1_m by exact H; apply Z.shiftr_nonneg; exact H).
    assert (H2 : 0 <= shr_m (iter_pos shr_1 n (shr_1 r)))
      by (rewrite IH by exact H1; apply Z.shiftr_nonneg; exact H1).
    rewrite IH, IH, shr_1_m, !Z.shiftr_shiftr by (assumption || lia).
    f_equal. lia.
  - assert (H2 : 0 <= shr_m (iter_pos shr_1 n r))
      by (rewrite IH by exact H; apply Z.shiftr_nonneg; exact H).
    rewrite IH, IH, !Z.shiftr_shiftr by (assumption || lia).
    f_equal. lia.
  - now apply shr_1_m.
Qed.

Lemma Zdigits2_log2 (m : Z) : 0 < m -> Zdigits2 m = Z.log2 m + 1.
Proof.
  destruct m as [| p | p]; try lia. intros _. apply digits_log2.
Qed.

(** Shifting right takes digits away. *)
Lemma Zdigits2_shiftr (m n : Z) :
  0 < m -> 0 <= n ->
  (Zdigits2 m <= n -> Z.shiftr m n = 0) /\
  (n < Zdigits2 m -> 0 < Z.shiftr m n /\ Zdigits2 (Z.shiftr m n) = Zdigits2 m - n).
Proof.
  intros Hm Hn. rewrite (Zdigits2_log2 m Hm). split.
  - intros H. apply Z.shiftr_eq_0; lia.
  - intros H.
    assert (P : 0 < Z.shiftr m n).
    { rewrite Z.shiftr_div_pow2 by lia.
      apply Z.div_str_pos. split; [apply Z.pow_pos_nonneg; lia |].
      apply Z.log2_le_pow2; lia. }
    split; [exact P |].
    rewrite (Zdigits2_log2 _ P), Z.log2_shiftr by lia. lia.
Qed.

Lemma shr_record_of_loc_m (m : Z) (l : location) :
  shr_m (shr_record_of_loc m l) = m.
Proof. destruct l as [| []]; reflexivity. Qed.

(** What [shr_fexp] returns when the exponent is not above the canonical
    one: the canonical exponent, and the mantissa shifted down to it. *)
Lemma shr_fexp_facts (m e : Z) (l : location) :
  0 <= m ->
  e <= fexp F32.prec F32.emax (Zdigits2 m + e) ->
  snd (shr_fexp F32.prec F32.emax m e l) = fexp F32.prec F32.emax (Zdigits2 m + e) /\
  shr_m (fst (shr_fexp F32.prec F32.emax m e l))
    = Z.shiftr m (fexp F32.prec F32.emax (Zdigits2 m + e) - e).
Proof.
  intros Hm He. unfold shr_fexp, shr.
  destruct (fexp F32.prec F32.emax (Zdigits2 m + e) - e) as [| n | n] eqn:N;
    cbn [fst snd].
  - rewrite shr_record_of_loc_m, Z.shiftr_0_r. split; lia.
  - rewrite iter_shr_1_m, shr_record_of_loc_m by (rewrite shr_record_of_loc_m; exact Hm).
    split; [lia | reflexivity].
  - lia.
Qed.

Lemma round_nearest_even_range (m : Z) (l : location) :
  m <= round_nearest_even m l <= m + 1.
Proof.
  destruct l as [| []]; cbn [round_nearest_even]; try lia.
  destruct (Z.even m); lia.
Qed.

Lemma Zdigits2_mono (a b : Z) : 0 < a -> a <= b -> Zdigits2 a <= Zdigits2 b.
Proof.
  intros Ha Hab. rewrite !Zdigits2_log2 by lia.
  pose proof (Z.log2_le_mono a b Hab). lia.
Qed.

Lemma fexp_mono (a b : Z) :
  a <= b -> fexp F32.prec F32.emax a <= fexp F32.prec F32.emax b.
Proof. unfold fexp, emin, F32.prec, F32.emax. lia. Qed.

(** Rounding gives a [float32] whenever the exponent it starts from is
    not above the canonical one. *)
Lemma binary_round_aux_valid (s : bool) (m e : Z) (l : location) :
  0 < m ->
  e <= fexp F32.prec F32.emax (Zdigits2 m + e) ->
  F32.valid (binary_round_aux F32.prec F32.emax s m e l) = true.
Proof.
  unfold F32.valid in *.
  intros Hm He. unfold binary_round_aux.
  destruct (shr_fexp_facts m e l ltac:(lia) He) as [E1 M1].
  destruct (shr_fexp F32.prec F32.emax m e l) as [mrs1 e1]. cbn [fst snd] in E1, M1.
  set (m1 := shr_m mrs1) in *.
  set (r := round_nearest_even m1 (loc_of_shr_record mrs1)).
  pose proof (round_nearest_even_range m1 (loc_of_shr_record mrs1)) as R. fold r in R.
  assert (N1 : 0 <= e1 - e) by lia.
  destruct (Zdigits2_shiftr m (e1 - e) Hm N1) as [Small Large].
  rewrite <- E1 in M1. rewrite <- M1 in Small, Large.
  assert (Hr : 0 <= r /\ e1 <= fexp F32.prec F32.emax (Zdigits2 r + e1)).
  { destruct (Z.le_gt_cases (Zdigits2 m) (e1 - e)) as [C | C].
    - specialize (Small C).
      assert (e1 = -149)
        by (revert E1 C; unfold fexp, emin, F32.prec, F32.emax; lia).
      split; [lia |].
      assert (Hr01 : r = 0 \/ r = 1) by lia.
      destruct Hr01 as [-> | ->]; cbn [Zdigits2 digits2_pos];
        unfold fexp, emin, F32.prec, F32.emax; lia.
    - destruct (Large C) as [P D].
      split; [lia |].
      rewrite E1 at 1. apply fexp_mono.
      pose proof (Zdigits2_mono m1 r P ltac:(lia)). lia. }
  destruct Hr as [Hr0 Hr1].
  destruct (shr_fexp_facts r e1 loc_Exact Hr0 Hr1) as [E2 M2].
  destruct (shr_fexp F32.prec F32.emax r e1 loc_Exact) as [mrs2 e2].
  cbn [fst snd] in E2, M2.
  destruct (shr_m mrs2) as [| p | p] eqn:P2; try reflexivity.
  destruct (e2 <=? F32.emax - F32.prec) eqn:B; [| reflexivity].
  cbn [valid_binary]. unfold bounded, canonical_mantissa. rewrite B, andb_true_r.
  apply Z.eqb_eq.
  assert (Hrpos : 0 < r).
  { destruct (Z.eq_dec r 0) as [-> | ]; [| lia].
    rewrite Z.shiftr_0_l in M2. discriminate. }
  assert (N2 : 0 <= e2 - e1) by lia.
  destruct (Zdigits2_shiftr r (e2 - e1) Hrpos N2) as [Small2 Large2].
  rewrite <- E2 in M2. rewrite <- M2 in Small2, Large2.
  destruct (Z.le_gt_cases (Zdigits2 r) (e2 - e1)) as [C | C].
  - specialize (Small2 C). discriminate.
  - destruct (Large2 C) as [_ D]. cbn [Zdigits2] in D.
    rewrite D. replace (Zdigits2 r - (e2 - e1) + e2) with (Zdigits2 r + e1) by lia.
    now symmetry.
Qed.

Lemma binary_round_valid (s : bool) (m : positive) (e : Z) :
  F32.valid (binary_round F32.prec F32.emax s m e) = true.
Proof.
  unfold F32.valid in *.
  unfold binary_round, shl_align.
  destruct (fexp F32.prec F32.emax (Zpos (digits2_pos m) + e) - e) as [| d | d] eqn:D;
    apply binary_round_aux_valid; cbn [Zdigits2]; try lia.
  rewrite digits_iter_xO.
    replace (Zpos (digits2_pos m) + Zpos d +
             fexp F32.prec F32.emax (Zpos (digits2_pos m) + e))
      with (Zpos (digits2_pos m) + e) by lia.
    lia.
Qed.

Lemma binary_normalize_valid (m e : Z) (sz : bool) :
  F32.valid (binary_normalize F32.prec F32.emax m e sz) = true.
Proof.
  unfold F32.valid in *.
  destruct m; cbn [binary_normalize]; [reflexivity | |]; apply binary_round_valid.
Qed.

Lemma of_int_valid (n : Z) : F32.valid (F32.of_int n) = true.
Proof. unfold F32.valid in *. apply binary_normalize_valid. Qed.

Lemma add_valid (a b : F32.t) :
  F32.valid a = true ->
  F32.valid b = true ->
  F32.valid (F32.add a b) = true.
Proof.
  unfold F32.valid in *.
  intros Va Vb. unfold F32.add, SFadd.
  destruct a as [sa | sa | | sa ma ea], b as [sb | sb | | sb mb eb];
    try reflexivity; try assumption;
    try (destruct sa, sb; reflexivity).
  apply binary_normalize_valid.
Qed.

Lemma sub_valid (a b : F32.t) :
  F32.valid a = true ->
  F32.valid b = true ->
  F32.valid (F32.sub a b) = true.
Proof.
  unfold F32.valid in *.
  intros Va Vb. unfold F32.sub, SFsub.
  destruct a as [sa | sa | | sa ma ea], b as [sb | sb | | sb mb eb];
    try reflexivity; try assumption;
    try (destruct sa, sb; reflexivity).
  apply binary_normalize_valid.
Qed.

(** [trunc] is the integer nearest to the value on the side of zero. *)
Lemma trunc_spec (x : F32.t) (n : Z) :
  F32.trunc x = Some n ->
  (Qabs (F32.to_Q x - inject_Z n) < 1)%Q /\
  (Qabs (inject_Z n) <= Qabs (F32.to_Q x))%Q.
Proof.
  intros T. destruct x as [s | s | | s m e]; try discriminate T;
    cbn [F32.trunc] in T; injection T as <-.
  - split; reflexivity || discriminate.
  - destruct e as [| p | k]; unfold F32.mag_trunc; cbn [F32.to_Q].
    + unfold Qlt, Qle, Qabs, Qminus, Qplus, Qopp, inject_Z. cbn [Qnum Qden].
      split; lia.
    + unfold Qlt, Qle, Qabs, Qminus, Qplus, Qopp, inject_Z. cbn [Qnum Qden].
      split; lia.
    + rewrite Z.shiftr_div_pow2 by lia.
      assert (P2 : 0 < 2 ^ Zpos k) by (apply Z.pow_pos_nonneg; lia).
      pose proof (Z.div_mod (Zpos m) (2 ^ Zpos k) ltac:(lia)) as DM.
      pose proof (Z.mod_pos_bound (Zpos m) (2 ^ Zpos k) P2) as MB.
      assert (Q0 : 0 <= Zpos m / 2 ^ Zpos k) by (apply Z.div_pos; lia).
      unfold Qlt, Qle, Qabs, Qminus, Qplus, Qopp, inject_Z. cbn [Qnum Qden].
      rewrite ?Pos.mul_1_r, ?Zpos_pow2.
      split; destruct s; cbn [cond_Zopp]; nia.
Qed.

(** [round] is the nearest integer, the one away from zero on a tie. *)
Lemma round_spec (x : F32.t) (n : Z) :
  F32.round x = Some n ->
  (Qabs (F32.to_Q x - inject_Z n) <= 1 # 2)%Q /\
  (Qabs (F32.to_Q x) - (1 # 2) < Qabs (inject_Z n))%Q.
Proof.
  intros T. destruct x as [s | s | | s m e]; try discriminate T;
    cbn [F32.round] in T; injection T as <-.
  - split; reflexivity || discriminate.
  - destruct e as [| p | k]; unfold F32.mag_round; cbn [F32.to_Q].
    + unfold Qlt, Qle, Qabs, Qminus, Qplus, Qopp, inject_Z. cbn [Qnum Qden].
      split; lia.
    + unfold Qlt, Qle, Qabs, Qminus, Qplus, Qopp, inject_Z. cbn [Qnum Qden].
      split; lia.
    + rewrite Z.shiftr_div_pow2 by lia.
      assert (P1 : 0 < 2 ^ (Zpos k - 1)) by (apply Z.pow_pos_nonneg; lia).
      assert (P2 : 2 ^ Zpos k = 2 * 2 ^ (Zpos k - 1)).
      { rewrite <- Z.pow_succ_r by lia. f_equal. lia. }
      pose proof (Z.div_mod (Zpos m) (2 ^ (Zpos k - 1)) ltac:(lia)) as DM.
      pose proof (Z.mod_pos_bound (Zpos m) (2 ^ (Zpos k - 1)) P1) as MB.
      assert (Q0 : 0 <= Zpos m / 2 ^ (Zpos k - 1)) by (apply Z.div_pos; lia).
      set (q := Zpos m / 2 ^ (Zpos k - 1)) in *.
      set (r := Zpos m mod 2 ^ (Zpos k - 1)) in *.
      pose proof (Z.div_mod (q + 1) 2 ltac:(lia)) as DN.
      pose proof (Z.mod_pos_bound (q + 1) 2 ltac:(lia)) as NB.
      set (j := (q + 1) / 2) in *.
      unfold Qlt, Qle, Qabs, Qminus, Qplus, Qopp, inject_Z. cbn [Qnum Qden].
      rewrite ?Pos.mul_1_r, ?Zpos_pow2.
      rewrite ?Pos2Z.inj_mul, ?Zpos_pow2, P2.
      split; destruct s; cbn [cond_Zopp]; nia.
Qed.

(** *** Comparison *)

Lemma SFcompare_antisym (x y : spec_float) :
  SFcompare y x = option_map CompOpp (SFcompare x y).
Proof.
  destruct x as [sx | sx | | sx mx ex], y as [sy | sy | | sy my ey];
    try reflexivity;
    try (destruct sx; reflexivity);
    try (destruct sy; reflexivity);
    try (destruct sx, sy; reflexivity).
  cbn. destruct sx, sy; try reflexivity; cbn.
  - rewrite (Z.compare_antisym ey ex).
    destruct (ey ?= ex); cbn; try reflexivity.
    rewrite CompOpp_involutive. f_equal.
    exact (Pos.compare_cont_antisym my mx Eq).
  - rewrite (Z.compare_antisym ey ex).
    destruct (ey ?= ex); cbn; try reflexivity.
    f_equal. symmetry. exact (Pos.compare_cont_antisym mx my Eq).
Qed.

(** [x <= y] excludes [y < x]. *)
Lemma leb_not_ltb (x y : F32.t) : F32.leb x y = true -> F32.ltb y x = false.
Proof.
  unfold F32.leb, F32.ltb, SFleb, SFltb. rewrite (SFcompare_antisym x y).
  destruct (SFcompare x y) as [[| |] |]; cbn; congruence.
Qed.

(** ** Click *)

Section Properties.
Context {ext : Externals}.

(** Only an accepted Press writes [clickedAt], and it writes the time of
    that Press. *)
Lemma click_clickedAt_step (c : Click.t) (e : pointer.Event) :
  Click.clickedAt (fst (Click.handle c e)) = Click.clickedAt c \/
  (pointer.Kind_ e = pointer.Press /\
   Click.clickedAt (fst (Click.handle c e)) = pointer.Time e).
Proof.
  unfold Click.handle.
  destruct (pointer.Kind_ e) eqn:K; simpl; auto.
  - destruct (Click.pressed c); simpl; auto.
  - destruct (Click.pressed c); simpl; auto.
    destruct (_ && _); simpl; auto.
    destruct (Click.hovered c); simpl;
      destruct (_ =? _)%N; simpl; auto.
  - destruct (negb _ || negb _); simpl; auto.
    destruct (negb _ || _); simpl; auto.
  - destruct (Click.pressed c); simpl; destruct (_ =? _)%N; simpl; auto.
  - destruct (Click.pressed c); simpl; destruct (_ =? _)%N; simpl; auto.
Qed.

(** C1. An accepted Press (recognizer not pressed, mouse-button gate passed,
    pointer id owned) sets the click count to the old count plus one when
    the Press time minus the time of the previous accepted Press is below
    200 ms, and to 1 otherwise; it records its own time, and the KindPress
    event it emits carries the new count.  The recorded time is written by
    an accepted Press only, so a Release never moves the window.  The sum
    and the difference are Go's, on 64-bit integers; within range they are
    the mathematical ones. *)
Theorem click_press_count (c : Click.t) (e : pointer.Event) :
  pointer.Kind_ e = pointer.Press ->
  Click.pressed c = false ->
  (pointer.Source_ e = pointer.Mouse ->
   pointer.Buttons_ e = pointer.ButtonPrimary) ->
  (Click.hovered c = true -> Click.pid c = pointer.PointerID e) ->
  let c' := fst (Click.handle c e) in
  let dt := GoInt.sub (pointer.Time e) (Click.clickedAt c) in
  (dt < 200 * time.Millisecond ->
   Click.clicks c' = GoInt.add (Click.clicks c) 1 /\
   (GoInt.in_range (Click.clicks c + 1) ->
    Click.clicks c' = Click.clicks c + 1)) /\
  (200 * time.Millisecond <= dt -> Click.clicks c' = 1) /\
  (GoInt.in_range (pointer.Time e - Click.clickedAt c) ->
   dt = pointer.Time e - Click.clickedAt c) /\
  Click.clickedAt c' = pointer.Time e /\
  Click.pressed c' = true /\
  snd (Click.handle c e) =
    [ {| Kind := KindPress;
         Position := Round (pointer.Position e);
         Source := pointer.Source_ e;
         Modifiers := pointer.Modifiers_ e;
         NumClicks := Click.clicks c' |} ] /\
  (forall (c0 : Click.t) (e0 : pointer.Event),
     pointer.Kind_ e0 <> pointer.Press ->
     Click.clickedAt (fst (Click.handle c0 e0)) = Click.clickedAt c0).
Proof.
  intros K P G O c' dt.
  assert (Hgate : pointer.Source_eqb (pointer.Source_ e) pointer.Mouse
                  && negb (pointer.Buttons_ e =? pointer.ButtonPrimary)%N = false).
  { destruct (pointer.Source_ e) eqn:S; simpl; auto.
    rewrite (G eq_refl), N.eqb_refl. reflexivity. }
  assert (Hc' : Click.handle c e =
    let n := if dt <? doubleClickDuration
             then GoInt.add (Click.clicks c) 1 else 1 in
    ({| Click.clickedAt := pointer.Time e; Click.clicks := n;
        Click.pressed := true; Click.hovered := Click.hovered c;
        Click.entered := Click.entered c; Click.pid := pointer.PointerID e |},
     [ {| Kind := KindPress; Position := Round (pointer.Position e);
          Source := pointer.Source_ e; Modifiers := pointer.Modifiers_ e;
          NumClicks := n |} ])).
  { unfold Click.handle. rewrite K, P, Hgate.
    destruct (Click.hovered c) eqn:Hh; simpl.
    - pose proof (O eq_refl) as Hp. rewrite <- Hp, N.eqb_refl, Hh. simpl. reflexivity.
    - rewrite N.eqb_refl. simpl. rewrite Hh. reflexivity. }
  subst c'. rewrite Hc'. cbn [fst snd Click.clicks Click.clickedAt Click.pressed].
  change (200 * time.Millisecond) with doubleClickDuration.
  repeat split.
  - destruct (Z.ltb_spec dt doubleClickDuration); [reflexivity | lia].
  - intros R. destruct (Z.ltb_spec dt doubleClickDuration); [| lia].
    now apply add_in_range.
  - intros H. destruct (Z.ltb_spec dt doubleClickDuration); [lia | reflexivity].
  - intros R. subst dt. now apply sub_in_range.
  - intros c0 e0 K0.
    destruct (click_clickedAt_step c0 e0) as [H | [H _]]; [exact H | contradiction].
Qed.


(** A press, a leave and the release of the same pointer after an Enter was
    tracked: the release is reported as a cancel. *)
Example click_press_leave_release :
  snd (Click.Update (ext := Examples.plain) Click.zero
         [ event.Pointer (Examples.touch pointer.Enter 1%N 0);
           event.Pointer (Examples.touch pointer.Press 1%N 0);
           event.Pointer (Examples.touch pointer.Leave 1%N 5);
           event.Pointer (Examples.touch pointer.Release 1%N 10) ])
  = [ {| Kind := KindPress; Position := image.Pt 0 0;
         Source := pointer.Touch; Modifiers := 0%N; NumClicks := 1 |};
      ClickEvent_of_kind KindCancel ].
Proof. vm_compute. reflexivity. Qed.

(** The scenario of the specification: two clicks 50 ms apart count 1 and
    2, and a press 450 ms later counts 1 again. *)
Example click_scenario :
  map NumClicks
    (snd (Click.Update (ext := Examples.plain) Click.zero
            [ event.Pointer (Examples.touch pointer.Press 1%N 0);
              event.Pointer (Examples.touch pointer.Release 1%N (10 * time.Millisecond));
              event.Pointer (Examples.touch pointer.Press 1%N (50 * time.Millisecond));
              event.Pointer (Examples.touch pointer.Release 1%N (60 * time.Millisecond));
              event.Pointer (Examples.touch pointer.Press 1%N (500 * time.Millisecond)) ]))
  = [1; 1; 2; 2; 1].
Proof. vm_compute. reflexivity. Qed.

(** ** Cancel *)


(** ** String methods *)

(** C9, on the code: [Axis.String] has no case for [Both], a declared
    constant of the type, and panics on it as on an invalid value. *)
Theorem Axis_String_Both_panics :
  valid_Axis Both /\ Axis_String Both = Panics "invalid Axis"%string.
Proof. split; [right; right; reflexivity | reflexivity]. Qed.

(** What holds of the String methods: every ClickKind constant and the
    axes [Horizontal] and [Vertical] have a name; every other value
    panics. *)
Lemma String_methods :
  (forall k, valid_ClickKind k -> exists name, ClickKind_String k = Returns name) /\
  (forall k, ~ valid_ClickKind k -> exists msg, ClickKind_String k = Panics msg) /\
  (forall a, a = Horizontal \/ a = Vertical -> exists name, Axis_String a = Returns name) /\
  (forall a, ~ (a = Horizontal \/ a = Vertical) -> exists msg, Axis_String a = Panics msg).
Proof.
  repeat split.
  - intros k [-> | [-> | ->]]; eexists; reflexivity.
  - intros k Hk. unfold valid_ClickKind, KindPress, KindClick, KindCancel in Hk.
    destruct k as [| [p | p |]]; try (exfalso; tauto).
    + destruct p; eexists; reflexivity.
    + destruct p; try (eexists; reflexivity). exfalso; tauto.
  - intros a [-> | ->]; eexists; reflexivity.
  - intros a Ha. unfold Horizontal, Vertical in Ha.
    destruct a as [| [p | p |]]; try (exfalso; tauto); eexists; reflexivity.
Qed.

(** ** Scroll *)

(** Outside the Press case the estimator is left alone, handed to
    [Estimate], or given one more sample: it is never set back to its zero
    value. *)
Lemma scroll_estimator_step (cfg : Metric) (now : Time) (s : Scroll.t)
  (e : pointer.Event) :
  pointer.Kind_ e <> pointer.Press ->
  let x := Scroll.estimator (fst (Scroll.handle cfg now s e)) in
  x = Scroll.estimator s \/
  x = snd (Estimate (Scroll.estimator s)) \/
  x = Sample (Scroll.estimator s) (pointer.Time e)
        (Scroll.val s (pointer.Position e)).
Proof.
  intros K. unfold Scroll.handle.
  destruct (pointer.Kind_ e); try contradiction; cbn; auto.
  - destruct (negb _); cbn; auto.
    destruct (Estimate (Scroll.estimator s)) as [est x'].
    destruct (Scroll.fling_exceeds cfg est); cbn; auto.
  - destruct (_ || _); cbn; auto.
    destruct (pointer.Priority_ltb _ _); cbn; auto.
    destruct (Scroll.drag_exceeds _ _); cbn; auto.
Qed.

(** C10. A Release carrying the stored pointer id is processed whatever
    [dragging] holds: the estimate is taken from the estimator as it
    stands, a fling is started exactly when the estimated distance is
    beyond the slop in either direction, and [dragging] and [grab] end up
    cleared.  The outcome is the same with [dragging] set or not, and only
    a Press sets the estimator back. *)
Theorem scroll_release_needs_no_drag (cfg : Metric) (now : Time)
  (s : Scroll.t) (e : pointer.Event) :
  pointer.Kind_ e = pointer.Release ->
  Scroll.pid s = pointer.PointerID e ->
  let est := fst (Estimate (Scroll.estimator s)) in
  let slop := F32.of_int (Dp cfg touchSlop) in
  let beyond := F32.ltb (fling.Distance est) (F32.neg slop)
                || F32.ltb slop (fling.Distance est) in
  let s' := fst (Scroll.handle cfg now s e) in
  snd (Scroll.handle cfg now s e) = 0 /\
  Scroll.dragging s' = false /\
  Scroll.grab s' = false /\
  Scroll.estimator s' = snd (Estimate (Scroll.estimator s)) /\
  (beyond = true ->
   Scroll.flinger s' = Start (Scroll.flinger s) cfg now (fling.Velocity est)) /\
  (beyond = false -> Scroll.flinger s' = Scroll.flinger s) /\
  (forall b : bool,
     Scroll.handle cfg now
       {| Scroll.dragging := b; Scroll.axis := Scroll.axis s;
          Scroll.estimator := Scroll.estimator s;
          Scroll.flinger := Scroll.flinger s; Scroll.pid := Scroll.pid s;
          Scroll.grab := Scroll.grab s; Scroll.last := Scroll.last s;
          Scroll.scroll := Scroll.scroll s |} e
     = Scroll.handle cfg now s e) /\
  (forall (s0 : Scroll.t) (e0 : pointer.Event),
     pointer.Kind_ e0 <> pointer.Press ->
     let x := Scroll.estimator (fst (Scroll.handle cfg now s0 e0)) in
     x = Scroll.estimator s0 \/
     x = snd (Estimate (Scroll.estimator s0)) \/
     x = Sample (Scroll.estimator s0) (pointer.Time e0)
           (Scroll.val s0 (pointer.Position e0))).
Proof.
  intros K I est slop beyond s'.
  assert (Hs : Scroll.handle cfg now s e =
               (Scroll.end_drag
                  (if beyond
                   then Scroll.set_flinger
                          (Scroll.set_estimator s (snd (Estimate (Scroll.estimator s))))
                          (Start (Scroll.flinger s) cfg now (fling.Velocity est))
                   else Scroll.set_estimator s (snd (Estimate (Scroll.estimator s)))),
                0)).
  { subst beyond slop est. unfold Scroll.handle, Scroll.fling_exceeds.
    rewrite K, I, N.eqb_refl. cbn [negb].
    destruct (Estimate (Scroll.estimator s)) as [est x]. reflexivity. }
  repeat split.
  - rewrite Hs. reflexivity.
  - subst s'. rewrite Hs. reflexivity.
  - subst s'. rewrite Hs. reflexivity.
  - subst s'. rewrite Hs. destruct beyond; reflexivity.
  - intros H. subst s'. rewrite Hs, H. reflexivity.
  - intros H. subst s'. rewrite Hs, H. reflexivity.
  - intros b. unfold Scroll.handle. rewrite K. cbn [Scroll.pid Scroll.estimator].
    rewrite <- I, N.eqb_refl. cbn [negb].
    destruct (Estimate (Scroll.estimator s)) as [est' x'].
    destruct (Scroll.fling_exceeds cfg est');
      unfold Scroll.end_drag, Scroll.set_flinger, Scroll.set_estimator;
      reflexivity.
  - intros s0 e0. apply scroll_estimator_step.
Qed.

(** A drag of pointer 1 from 0 to 100 and its release start a fling; after
    [Stop], the bare Release of pointer 1 in a later frame, with no drag in
    progress, starts one again from the samples that are still held. *)
Example scroll_release_again :
  let frame1 :=
    [ event.Pointer (Examples.touch_at pointer.Press 1%N pointer.Normal (Examples.pt 0 0));
      event.Pointer (Examples.touch_at pointer.Drag 1%N pointer.Grabbed (Examples.pt 100 0));
      event.Pointer (Examples.touch pointer.Release 1%N 0) ] in
  let s1 := fst (Scroll.Update (ext := Examples.plain) 1 frame1 0 Horizontal
                   Examples.at_rest) in
  let s2 := Scroll.Stop s1 in
  let frame2 := [ event.Pointer (Examples.touch pointer.Release 1%N 0) ] in
  let s3 := fst (Scroll.Update (ext := Examples.plain) 1 frame2 0 Horizontal s2) in
  Scroll.dragging s1 = false /\
  Scroll.flinger s1 = Some (F32.of_int 100) /\
  Scroll.flinger s2 = None /\
  Scroll.dragging s2 = false /\
  Scroll.flinger s3 = Some (F32.of_int 100).
Proof. cbv zeta. repeat split; vm_compute; reflexivity. Qed.

(** C3, as the code has it.  A Drag of the owned pointer during a drag
    whose priority is below Grabbed adds nothing to the total and leaves
    [last] alone; it sets [grab] (which otherwise stays as it was) exactly
    when the difference between [last] and the rounded position is at
    least the slop or at most its negation, that is, for a slop that is
    not negative, at least the slop in magnitude.  With priority Grabbed
    the difference is what is added, [last] becomes the rounded position,
    and [grab] is not touched. *)
Theorem scroll_drag_step (cfg : Metric) (now : Time) (s : Scroll.t)
  (e : pointer.Event) :
  pointer.Kind_ e = pointer.Drag ->
  Scroll.dragging s = true ->
  Scroll.pid s = pointer.PointerID e ->
  let v := F32.round_to_int unrepresentable
             (Scroll.val s (pointer.Position e)) in
  let dist := GoInt.sub (Scroll.last s) v in
  let slop := Dp cfg touchSlop in
  let s' := fst (Scroll.handle cfg now s e) in
  let n := snd (Scroll.handle cfg now s e) in
  (pointer.Priority_ltb (pointer.Priority_ e) pointer.Grabbed = true ->
   n = 0 /\ Scroll.last s' = Scroll.last s /\
   (Scroll.grab s' = true <->
    Scroll.grab s = true \/ slop <= dist \/ dist <= GoInt.neg slop)) /\
  (pointer.Priority_ltb (pointer.Priority_ e) pointer.Grabbed = false ->
   n = dist /\ Scroll.last s' = v /\ Scroll.grab s' = Scroll.grab s) /\
  (0 <= slop -> GoInt.in_range slop ->
   (slop <= dist \/ dist <= GoInt.neg slop <-> slop <= Z.abs dist)).
Proof.
  intros K D I v dist slop s' n. subst s' n.
  unfold Scroll.handle. rewrite K, D, I, N.eqb_refl. cbn [negb orb].
  cbn [Scroll.last Scroll.set_estimator]. fold v. fold dist.
  split; [| split]; [intros P; rewrite P | intros P; rewrite P |].
  - unfold Scroll.drag_exceeds. fold slop.
    destruct (Z.geb_spec dist slop) as [H1 | H1];
      destruct (Z.geb_spec (GoInt.neg slop) dist) as [H2 | H2];
      cbn; repeat split; auto; try lia.
    intros [H | [H | H]]; [exact H | lia | lia].
  - cbn. repeat split.
  - intros S0 SR. unfold GoInt.neg.
    rewrite wrap_in_range
      by (unfold GoInt.in_range, GoInt.min_int, GoInt.max_int in *; lia).
    lia.
Qed.

(** ** Drag *)

(** The state after the loop does not depend on what was collected so
    far, and is the fold of [handle] over the pointer events. *)
Lemma drag_loop_state (cfg : Metric) (axis : Axis) (q : list event.Event) :
  forall (d : Drag.t) (acc : list pointer.Event),
    fst (Drag.loop cfg axis d q acc) =
    fold_left (fun d e => fst (Drag.handle cfg axis d e)) (pointer_events q) d.
Proof.
  induction q as [| [e |] q IH]; intros d acc; cbn.
  - reflexivity.
  - destruct (Drag.handle cfg axis d e) as [d' out] eqn:E. cbn. apply IH.
  - apply IH.
Qed.

(** What the loop returns is what was collected so far followed by what
    each pointer event appends. *)
Lemma drag_loop_events (cfg : Metric) (axis : Axis) (q : list event.Event) :
  forall (d : Drag.t) (acc : list pointer.Event) (out : pointer.Event),
    In out (snd (Drag.loop cfg axis d q acc)) ->
    In out acc \/
    exists q1 e q2,
      pointer_events q = q1 ++ e :: q2 /\
      In out (snd (Drag.handle cfg axis
                     (fold_left (fun d e => fst (Drag.handle cfg axis d e)) q1 d) e)).
Proof.
  induction q as [| [e |] q IH]; intros d acc out; cbn.
  - auto.
  - destruct (Drag.handle cfg axis d e) as [d' o] eqn:E. intros H.
    apply IH in H. destruct H as [H | (q1 & e' & q2 & Hq & H)].
    + apply in_app_or in H. destruct H as [H | H]; [now left |].
      right. exists [], e, (pointer_events q). cbn. rewrite E. auto.
    + right. exists (e :: q1), e', q2. cbn. rewrite Hq, E. auto.
  - apply IH.
Qed.

(** While the gesture goes on, one step keeps the drag, its pointer and
    its start; [grab] stays once set, and is set exactly by a Drag of the
    owned pointer below Grabbed whose squared distance is above the
    squared slop. *)
Lemma drag_step_in_gesture (cfg : Metric) (axis : Axis) (d : Drag.t)
  (e : pointer.Event) :
  Drag.dragging d = true ->
  Drag.ends_gesture d e = false ->
  let d1 := fst (Drag.handle cfg axis d e) in
  Drag.dragging d1 = true /\ Drag.pid d1 = Drag.pid d /\
  Drag.start d1 = Drag.start d /\
  Drag.grab d1 =
    Drag.grab d
    || Drag.below_grabbed d e
       && F32.ltb (Drag.sq_slop (Dp cfg touchSlop)) (Drag.displacement axis d e).
Proof.
  intros D E. unfold Drag.ends_gesture in E.
  unfold Drag.handle, Drag.below_grabbed, Drag.displacement.
  destruct (pointer.Kind_ e) eqn:K;
    cbn [andb Drag.set_pressed Drag.dragging Drag.pid Drag.start Drag.grab];
    rewrite ?D, ?E; cbn [negb orb andb fst Drag.dragging Drag.pid Drag.start Drag.grab];
    rewrite ?orb_false_r; auto.
  - destruct (negb _); cbn; rewrite ?D, ?orb_false_r; auto.
  - destruct (pointer.PointerID e =? Drag.pid d)%N; cbn [negb andb fst];
      rewrite ?orb_false_r; auto.
    cbn [pointer.Priority_ pointer.Position Drag.set_Position].
    destruct (pointer.Priority_ltb _ _); cbn; rewrite ?orb_false_r; auto.
    destruct (F32.ltb _ _); cbn; rewrite ?orb_false_r, ?orb_true_r; auto.
Qed.

(** The same along a run of events none of which ends the gesture. *)
Lemma drag_fold_in_gesture (cfg : Metric) (axis : Axis) (d0 : Drag.t)
  (es : list pointer.Event) :
  forall d : Drag.t,
    Drag.dragging d = true -> Drag.pid d = Drag.pid d0 ->
    Drag.start d = Drag.start d0 ->
    Forall (fun e => Drag.ends_gesture d0 e = false) es ->
    let d' := fold_left (fun d e => fst (Drag.handle cfg axis d e)) es d in
    Drag.dragging d' = true /\ Drag.pid d' = Drag.pid d0 /\
    Drag.start d' = Drag.start d0 /\
    Drag.grab d' =
      Drag.grab d
      || existsb (fun e =>
                    Drag.below_grabbed d0 e
                    && F32.ltb (Drag.sq_slop (Dp cfg touchSlop))
                         (Drag.displacement axis d0 e)) es.
Proof.
  induction es as [| e es IH]; intros d D P S F; cbn.
  - rewrite orb_false_r. auto.
  - inversion F as [| ? ? Fe Fes]; subst.
    assert (E : Drag.ends_gesture d e = false).
    { unfold Drag.ends_gesture in *. now rewrite P. }
    destruct (drag_step_in_gesture cfg axis d e D E) as (D1 & P1 & S1 & G1).
    destruct (IH _ D1 (eq_trans P1 P) (eq_trans S1 S) Fes) as (D2 & P2 & S2 & G2).
    repeat split; auto.
    rewrite G2, G1. unfold Drag.below_grabbed, Drag.displacement.
    rewrite P, S. now rewrite orb_assoc.
Qed.

(** A Drag recognizer that is not dragging requests no grab: this holds of
    the zero value and is kept by every step, so a gesture begins with
    [grab] unset. *)
Lemma drag_idle_no_grab (cfg : Metric) (axis : Axis) (d : Drag.t)
  (e : pointer.Event) :
  (Drag.dragging d = false -> Drag.grab d = false) ->
  Drag.dragging (fst (Drag.handle cfg axis d e)) = false ->
  Drag.grab (fst (Drag.handle cfg axis d e)) = false.
Proof.
  intros Inv. unfold Drag.handle.
  destruct (pointer.Kind_ e);
    cbn [Drag.set_pressed Drag.dragging Drag.pid Drag.start Drag.grab];
    try (cbn; exact Inv).
  - destruct (Drag.dragging d) eqn:D; cbn [negb orb].
    + destruct (negb _); cbn; [congruence | reflexivity].
    + cbn. intros _. now apply Inv.
  - destruct (negb _); cbn; [exact Inv |].
    destruct (Drag.dragging d) eqn:D; cbn; congruence.
  - destruct (Drag.dragging d) eqn:D; cbn [negb orb].
    + destruct (negb _); cbn; [congruence | reflexivity].
    + cbn. intros _. now apply Inv.
  - destruct (Drag.dragging d) eqn:D; cbn [negb orb].
    + destruct (negb _); cbn; [congruence |].
      destruct (pointer.Priority_ltb _ _); [| cbn; congruence].
      destruct (F32.ltb _ _); cbn; congruence.
    + cbn. intros _. now apply Inv.
Qed.

Lemma drag_idle_no_grab_run (cfg : Metric) (axis : Axis) (q : list event.Event) :
  forall d : Drag.t,
    (Drag.dragging d = false -> Drag.grab d = false) ->
    Drag.dragging (fst (Drag.Update cfg q axis d)) = false ->
    Drag.grab (fst (Drag.Update cfg q axis d)) = false.
Proof.
  unfold Drag.Update. intros d. rewrite drag_loop_state.
  revert d. induction (pointer_events q) as [| e es IH]; intros d Inv; cbn.
  - exact Inv.
  - apply IH. now apply drag_idle_no_grab.
Qed.

(** The distance the Drag case compares with the slop, written out: the
    coordinate across the axis is that of the start, the differences, their
    squares and the sum are [float32] operations. *)
Lemma drag_displacement_formula (axis : Axis) (d : Drag.t) (e : pointer.Event) :
  Drag.displacement axis d e =
  let x := if (axis =? Vertical)%N then f32.X (Drag.start d)
           else f32.X (pointer.Position e) in
  let y := if (axis =? Horizontal)%N then f32.Y (Drag.start d)
           else f32.Y (pointer.Position e) in
  let dx := F32.sub x (f32.X (Drag.start d)) in
  let dy := F32.sub y (f32.Y (Drag.start d)) in
  F32.add (F32.mul dx dx) (F32.mul dy dy).
Proof.
  unfold Drag.displacement, Drag.sq_dist, Drag.pin, f32.Sub.
  destruct axis as [| [p | p |]]; reflexivity.
Qed.

(** C4, as the code has it.  The distance the code compares is not the
    Euclidean displacement of the event from the start: the coordinate
    across the axis is first replaced by that of the start (so with
    Horizontal or Vertical a move across the axis counts for nothing), and
    the differences [dx], [dy], the squares and their sum are [float32]
    operations, compared with [float32(slop*slop)].  With this distance:
    during a gesture (a drag in progress and no Release or Cancel of the
    owned pointer among the events), [grab] is not set as long as every
    Drag of the owned pointer below Grabbed has a distance of at most the
    threshold; it is set as soon as one is above it, and once set it stays
    set to the end of the events.  A step takes [grab] back only in the
    Release or Cancel of the owned pointer during a drag. *)
Theorem drag_grab_latch (cfg : Metric) (axis : Axis) (d : Drag.t)
  (q : list event.Event) :
  Drag.dragging d = true ->
  Forall (fun e => Drag.ends_gesture d e = false) (pointer_events q) ->
  let d' := fst (Drag.Update cfg q axis d) in
  let slop := Dp cfg touchSlop in
  let threshold := F32.of_int (GoInt.mul slop slop) in
  let dist (e : pointer.Event) :=
    let x := if (axis =? Vertical)%N then f32.X (Drag.start d)
             else f32.X (pointer.Position e) in
    let y := if (axis =? Horizontal)%N then f32.Y (Drag.start d)
             else f32.Y (pointer.Position e) in
    let dx := F32.sub x (f32.X (Drag.start d)) in
    let dy := F32.sub y (f32.Y (Drag.start d)) in
    F32.add (F32.mul dx dx) (F32.mul dy dy) in
  let owned_below_grabbed (e : pointer.Event) :=
    pointer.Kind_ e = pointer.Drag /\
    pointer.PointerID e = Drag.pid d /\
    pointer.Priority_ e <> pointer.Grabbed in
  (Drag.grab d = false ->
   Forall (fun e => owned_below_grabbed e -> F32.leb (dist e) threshold = true)
          (pointer_events q) ->
   Drag.grab d' = false) /\
  (Exists (fun e => owned_below_grabbed e /\ F32.ltb threshold (dist e) = true)
          (pointer_events q) ->
   Drag.grab d' = true) /\
  (Drag.grab d = true -> Drag.grab d' = true) /\
  (forall (d0 : Drag.t) (e0 : pointer.Event),
     Drag.grab d0 = true ->
     Drag.grab (fst (Drag.handle cfg axis d0 e0)) = false ->
     (pointer.Kind_ e0 = pointer.Release \/ pointer.Kind_ e0 = pointer.Cancel) /\
     pointer.PointerID e0 = Drag.pid d0 /\ Drag.dragging d0 = true).
Proof.
  intros D F d' slop threshold dist owned_below_grabbed. subst d'.
  unfold Drag.Update. rewrite drag_loop_state.
  destruct (drag_fold_in_gesture cfg axis d (pointer_events q) d D eq_refl eq_refl F)
    as (_ & _ & _ & G).
  assert (B : forall e, Drag.below_grabbed d e = true <-> owned_below_grabbed e).
  { intros e. subst owned_below_grabbed. unfold Drag.below_grabbed. cbv beta.
    rewrite !andb_true_iff, N.eqb_eq.
    destruct (pointer.Kind_ e); destruct (pointer.Priority_ e); cbn;
      intuition (try discriminate; try congruence). }
  assert (M : forall e, Drag.displacement axis d e = dist e)
    by (intros e; apply drag_displacement_formula).
  change (Drag.sq_slop (Dp cfg touchSlop)) with threshold in G.
  rewrite G. clear G. split; [| split; [| split]].
  - intros G0 W. rewrite G0. cbn.
    apply not_true_is_false. intros H. apply existsb_exists in H.
    destruct H as (e & He & H). apply andb_prop in H. destruct H as [Be L].
    rewrite Forall_forall in W. specialize (W e He (proj1 (B e) Be)).
    rewrite M in L. apply leb_not_ltb in W. congruence.
  - intros X. apply Exists_exists in X. destruct X as (e & He & Be & L).
    apply orb_true_iff. right. apply existsb_exists. exists e.
    split; [exact He |]. rewrite (proj2 (B e) Be), M, L. reflexivity.
  - intros G0. now rewrite G0.
  - intros d0 e0 G0 G1.
    unfold Drag.handle in G1.
    destruct (pointer.Kind_ e0) eqn:K;
      cbn [Drag.set_pressed Drag.dragging Drag.pid Drag.start Drag.grab] in G1;
      try (cbn in G1; congruence).
    + destruct (Drag.dragging d0); cbn in G1; [| congruence].
      destruct (N.eqb_spec (pointer.PointerID e0) (Drag.pid d0)); cbn in G1;
        [auto | congruence].
    + destruct (negb _); cbn in G1; [congruence |].
      destruct (Drag.dragging d0); cbn in G1; congruence.
    + destruct (Drag.dragging d0); cbn in G1; [| congruence].
      destruct (N.eqb_spec (pointer.PointerID e0) (Drag.pid d0)); cbn in G1;
        [auto | congruence].
    + destruct (negb (Drag.dragging d0) || _); cbn in G1; [congruence |].
      destruct (pointer.Priority_ltb _ _); [| congruence].
      destruct (F32.ltb _ _); cbn in G1; congruence.
Qed.

(** A forwarded event of kind Drag, during a gesture, is a Drag of the
    owned pointer among the events, with its position replaced by the
    pinned one. *)
Lemma drag_forwarded_drag (cfg : Metric) (axis : Axis) (d : Drag.t)
  (q : list event.Event) (out : pointer.Event) :
  Drag.dragging d = true ->
  Forall (fun e => Drag.ends_gesture d e = false) (pointer_events q) ->
  In out (snd (Drag.Update cfg q axis d)) ->
  pointer.Kind_ out = pointer.Drag ->
  exists e,
    In e (pointer_events q) /\ pointer.Kind_ e = pointer.Drag /\
    pointer.PointerID e = Drag.pid d /\
    out = Drag.set_Position e (Drag.pin axis (Drag.start d) (pointer.Position e)).
Proof.
  intros D F I K. unfold Drag.Update in I.
  apply drag_loop_events in I. destruct I as [[] | (q1 & e & q2 & Hq & I)].
  rewrite Hq in F. apply Forall_app in F. destruct F as [F1 F2].
  destruct (drag_fold_in_gesture cfg axis d q1 d D eq_refl eq_refl F1)
    as (D1 & P1 & S1 & _).
  set (d1 := fold_left _ q1 d) in *.
  exists e. split; [rewrite Hq; apply in_elt |].
  unfold Drag.handle in I.
  destruct (pointer.Kind_ e) eqn:Ke.
  - destruct (_ || _); cbn in I; [tauto |].
    destruct I as [<- | []]. congruence.
  - destruct (negb _); cbn in I; [tauto |].
    destruct (Drag.dragging d1); cbn in I; [tauto |].
    destruct I as [<- | []]. congruence.
  - destruct (_ || _); cbn in I; [tauto |].
    destruct I as [<- | []]. congruence.
  - destruct I as [<- | []]. congruence.
  - rewrite D1, S1, P1 in I. cbn [negb orb] in I.
    destruct (pointer.PointerID e =? Drag.pid d)%N eqn:Ep; cbn in I; [| tauto].
    apply N.eqb_eq in Ep. destruct I as [<- | []]. auto.
  - destruct I as [<- | []]. congruence.
  - destruct I as [<- | []]. congruence.
  - destruct I as [<- | []]. congruence.
Qed.

(** C5. During a gesture every forwarded Drag event is a Drag of the owned
    pointer whose position was pinned: with Horizontal its Y is the Y of
    the start and its X is the input's, with Vertical its X is the X of
    the start and its Y the input's, with Both it is the input event.  In
    particular a Horizontal drag that started at (10,10) forwards Drag
    events with Y = 10 only. *)
Theorem drag_axis_pinned (cfg : Metric) (axis : Axis) (d : Drag.t)
  (q : list event.Event) (out : pointer.Event) :
  Drag.dragging d = true ->
  Forall (fun e => Drag.ends_gesture d e = false) (pointer_events q) ->
  In out (snd (Drag.Update cfg q axis d)) ->
  pointer.Kind_ out = pointer.Drag ->
  (exists e,
     In e (pointer_events q) /\ pointer.Kind_ e = pointer.Drag /\
     pointer.PointerID e = Drag.pid d /\
     pointer.PointerID out = Drag.pid d /\
     (axis = Horizontal ->
      pointer.Position out =
        f32.Pt (f32.X (pointer.Position e)) (f32.Y (Drag.start d))) /\
     (axis = Vertical ->
      pointer.Position out =
        f32.Pt (f32.X (Drag.start d)) (f32.Y (pointer.Position e))) /\
     (axis = Both -> out = e)) /\
  (axis = Horizontal ->
   Drag.start d = f32.Pt (F32.of_int 10) (F32.of_int 10) ->
   f32.Y (pointer.Position out) = F32.of_int 10).
Proof.
  intros D F I K.
  destruct (drag_forwarded_drag cfg axis d q out D F I K) as (e & He & Ke & Pe & ->).
  split.
  - exists e. repeat split; auto.
    + intros ->. reflexivity.
    + intros ->. reflexivity.
    + intros ->. destruct e; reflexivity.
  - intros -> S. cbn. now rewrite S.
Qed.

(** ** Events of a pointer that is not the owned one *)

(** What Drag makes of an event from a pointer that is not the owned one,
    during a drag. *)
Lemma drag_foreign_step (cfg : Metric) (axis : Axis) (d : Drag.t)
  (e : pointer.Event) :
  Drag.dragging d = true ->
  Drag.pid d <> pointer.PointerID e ->
  Drag.handle cfg axis d e =
  match pointer.Kind_ e with
  | pointer.Press =>
      if (pointer.Buttons_ e =? pointer.ButtonPrimary)%N
         || pointer.Source_eqb (pointer.Source_ e) pointer.Touch
      then ({| Drag.dragging := Drag.dragging d; Drag.pressed := true;
               Drag.pid := Drag.pid d; Drag.start := Drag.start d;
               Drag.grab := Drag.grab d |}, [])
      else (d, [])
  | pointer.Release | pointer.Cancel =>
      ({| Drag.dragging := Drag.dragging d; Drag.pressed := false;
          Drag.pid := Drag.pid d; Drag.start := Drag.start d;
          Drag.grab := Drag.grab d |}, [])
  | pointer.Drag => (d, [])
  | _ => (d, [e])
  end.
Proof.
  intros D P.
  assert (P' : (pointer.PointerID e =? Drag.pid d)%N = false)
    by (apply N.eqb_neq; congruence).
  unfold Drag.handle, Drag.set_pressed.
  destruct (pointer.Kind_ e);
    cbn [Drag.dragging Drag.pid Drag.start Drag.grab];
    rewrite ?D, ?P'; cbn [negb orb]; try reflexivity.
  destruct ((pointer.Buttons_ e =? pointer.ButtonPrimary)%N
            || pointer.Source_eqb (pointer.Source_ e) pointer.Touch);
    reflexivity.
Qed.

(** C8, as the code has it.  While a gesture is in progress (Click
    pressed, Drag or Scroll dragging), an event other than Cancel from a
    pointer that is not the owned one is ignored by Click, and by Scroll
    unless it is a wheel event.  Drag never lets it change [dragging],
    [pid], [start] or [grab], and forwards nothing for a Press, Release or
    Drag of it, but [pressed] is written before the pointers are compared:
    a Press with the primary button alone or from a touch source sets it,
    any other Press changes nothing, and a Release clears it.  A hovered
    Click that is not pressed ignores it unless it is an Enter or a
    Leave. *)
Theorem foreign_pointer_events (e : pointer.Event) :
  pointer.Kind_ e <> pointer.Cancel ->
  (forall c : Click.t,
     Click.pid c <> pointer.PointerID e ->
     (Click.pressed c = true -> Click.handle c e = (c, [])) /\
     (Click.hovered c = true ->
      pointer.Kind_ e <> pointer.Enter -> pointer.Kind_ e <> pointer.Leave ->
      Click.handle c e = (c, []))) /\
  (forall (cfg : Metric) (axis : Axis) (d : Drag.t),
     Drag.dragging d = true ->
     Drag.pid d <> pointer.PointerID e ->
     let d' := fst (Drag.handle cfg axis d e) in
     let with_pressed (b : bool) :=
       {| Drag.dragging := Drag.dragging d; Drag.pressed := b;
          Drag.pid := Drag.pid d; Drag.start := Drag.start d;
          Drag.grab := Drag.grab d |} in
     Drag.dragging d' = true /\ Drag.pid d' = Drag.pid d /\
     Drag.start d' = Drag.start d /\ Drag.grab d' = Drag.grab d /\
     (pointer.Kind_ e = pointer.Drag -> Drag.handle cfg axis d e = (d, [])) /\
     (pointer.Kind_ e = pointer.Release ->
      Drag.handle cfg axis d e = (with_pressed false, []) /\
      Drag.pressed d' = false) /\
     (pointer.Kind_ e = pointer.Press ->
      pointer.Buttons_ e = pointer.ButtonPrimary \/
      pointer.Source_ e = pointer.Touch ->
      Drag.handle cfg axis d e = (with_pressed true, []) /\
      Drag.pressed d' = true) /\
     (pointer.Kind_ e = pointer.Press ->
      pointer.Buttons_ e <> pointer.ButtonPrimary ->
      pointer.Source_ e <> pointer.Touch ->
      Drag.handle cfg axis d e = (d, [])) /\
     (pointer.Kind_ e <> pointer.Press -> pointer.Kind_ e <> pointer.Release ->
      Drag.pressed d' = Drag.pressed d)) /\
  (forall (cfg : Metric) (now : Time) (s : Scroll.t),
     Scroll.dragging s = true ->
     Scroll.pid s <> pointer.PointerID e ->
     pointer.Kind_ e <> pointer.Scroll ->
     Scroll.handle cfg now s e = (s, 0)).
Proof.
  intros NC. split; [| split].
  - intros c P. apply N.eqb_neq in P. split.
    + intros Hp. unfold Click.handle.
      destruct (pointer.Kind_ e); try reflexivity; try contradiction;
        rewrite ?Hp; cbn; rewrite ?P; cbn; try reflexivity.
    + intros Hh NE NL. unfold Click.handle.
      destruct (pointer.Kind_ e); try reflexivity; try contradiction.
      * destruct (Click.pressed c); [reflexivity |].
        destruct (_ && _); [reflexivity |].
        rewrite Hh. cbn. rewrite P. reflexivity.
      * rewrite P, orb_true_r. reflexivity.
  - intros cfg axis d D P d' with_pressed. subst d'.
    rewrite (drag_foreign_step cfg axis d e D P).
    split; [| split; [| split; [| split; [| split; [| split; [| split; [| split]]]]]]].
    + destruct (pointer.Kind_ e); try exact D;
        destruct (_ || _); exact D.
    + destruct (pointer.Kind_ e); try reflexivity; destruct (_ || _); reflexivity.
    + destruct (pointer.Kind_ e); try reflexivity; destruct (_ || _); reflexivity.
    + destruct (pointer.Kind_ e); try reflexivity; destruct (_ || _); reflexivity.
    + intros ->. reflexivity.
    + intros ->. split; reflexivity.
    + intros -> Acc.
      assert (T : (pointer.Buttons_ e =? pointer.ButtonPrimary)%N
                  || pointer.Source_eqb (pointer.Source_ e) pointer.Touch = true).
      { destruct Acc as [-> | ->]; [reflexivity | apply orb_true_r]. }
      rewrite T. split; reflexivity.
    + intros -> NB NT.
      assert (T : (pointer.Buttons_ e =? pointer.ButtonPrimary)%N
                  || pointer.Source_eqb (pointer.Source_ e) pointer.Touch = false).
      { apply orb_false_iff. split; [now apply N.eqb_neq |].
        destruct (pointer.Source_ e); try reflexivity. contradiction. }
      rewrite T. reflexivity.
    + intros NP NR. destruct (pointer.Kind_ e); try reflexivity; contradiction.
  - intros cfg now s D P NS. apply N.eqb_neq in P.
    unfold Scroll.handle.
    destruct (pointer.Kind_ e); try reflexivity; try contradiction;
      rewrite ?D, ?P; cbn; reflexivity.
Qed.

(** ** The wheel accumulator *)

(** One wheel event along a horizontal or vertical axis. *)
Lemma scroll_wheel_step (cfg : Metric) (now : Time) (s : Scroll.t)
  (e : pointer.Event) :
  Scroll.axis s = Horizontal \/ Scroll.axis s = Vertical ->
  pointer.Kind_ e = pointer.Scroll ->
  let sum := F32.add (Scroll.scroll s) (Scroll.axis_delta (Scroll.axis s) e) in
  let n := F32.to_int unrepresentable sum in
  Scroll.handle cfg now s e =
    (Scroll.set_scroll s (F32.sub sum (F32.of_int n)), n).
Proof.
  intros A K. unfold Scroll.handle, Scroll.wheel_acc, Scroll.axis_delta.
  rewrite K. destruct A as [-> | ->]; reflexivity.
Qed.

Lemma scroll_wheel_loop (cfg : Metric) (now : Time) (es : list pointer.Event) :
  forall (s : Scroll.t) (total : Z),
    Scroll.axis s = Horizontal \/ Scroll.axis s = Vertical ->
    Forall (fun e => pointer.Kind_ e = pointer.Scroll) es ->
    let acc := Scroll.accumulate (Scroll.scroll s)
                 (map (Scroll.axis_delta (Scroll.axis s)) es) in
    Scroll.loop cfg now s (map event.Pointer es) total =
      (Scroll.set_scroll s (snd acc), fold_left GoInt.add (fst acc) total).
Proof.
  induction es as [| e es IH]; intros s total A F; cbn.
  - destruct s; reflexivity.
  - inversion F as [| ? ? K Fes]; subst.
    rewrite (scroll_wheel_step cfg now s e A K).
    set (sum := F32.add _ _). set (n := F32.to_int _ sum).
    rewrite (IH (Scroll.set_scroll s (F32.sub sum (F32.of_int n)))
               (GoInt.add total n) A Fes).
    cbn [Scroll.scroll Scroll.axis Scroll.set_scroll].
    destruct (Scroll.accumulate _ _) as [outs r]. reflexivity.
Qed.

(** One wheel event whose sum has an integer part that [int] holds: that
    part is what is given out, and what is kept is exactly the rest. *)
Lemma scroll_wheel_exact (cfg : Metric) (now : Time) (s : Scroll.t)
  (e : pointer.Event) (n : Z) :
  Scroll.axis s = Horizontal \/ Scroll.axis s = Vertical ->
  pointer.Kind_ e = pointer.Scroll ->
  F32.valid (Scroll.scroll s) = true ->
  F32.valid (Scroll.axis_delta (Scroll.axis s) e) = true ->
  let sum := F32.add (Scroll.scroll s) (Scroll.axis_delta (Scroll.axis s) e) in
  F32.trunc sum = Some n ->
  GoInt.in_range n ->
  let s' := fst (Scroll.handle cfg now s e) in
  snd (Scroll.handle cfg now s e) = n /\
  (Qabs (inject_Z n) <= Qabs (F32.to_Q sum))%Q /\
  (F32.to_Q (Scroll.scroll s') == F32.to_Q sum - inject_Z n)%Q /\
  (Qabs (F32.to_Q (Scroll.scroll s')) < 1)%Q /\
  F32.valid (Scroll.scroll s') = true.
Proof.
  intros A K Vs Vd sum T R s'. subst s'.
  rewrite (scroll_wheel_step cfg now s e A K). fold sum.
  assert (Hn : F32.to_int unrepresentable sum = n).
  { unfold F32.to_int, F32.clamp. rewrite T.
    unfold GoInt.in_range in R.
    destruct (Z.leb_spec GoInt.min_int n); [| lia].
    destruct (Z.leb_spec n GoInt.max_int); [reflexivity | lia]. }
  rewrite Hn. cbn [fst snd Scroll.scroll Scroll.set_scroll].
  assert (Vsum : F32.valid sum = true) by (now apply add_valid).
  pose proof (fraction_exact sum n Vsum T) as E.
  destruct (trunc_spec sum n T) as [L1 L2].
  repeat split; auto.
  - now rewrite E.
  - apply sub_valid; [exact Vsum | apply of_int_valid].
Qed.

(** C6. Over any run of wheel events along a horizontal or vertical axis,
    the loop of [Update] gives out, event by event, the integer part of
    the carried remainder plus the delta of that axis and carries the rest:
    the state changes in [scroll] only, which ends as the accumulator's
    remainder, and the total grows by the accumulator's outputs.  Where
    remainder and delta are [float32] values and the integer part of their
    sum fits an [int], the output is that part, cut towards zero, and the
    new remainder is exactly the sum minus it, below 1 in magnitude.  From
    a zero remainder the deltas 0.3, 0.3, 0.3, 0.3 (as [float32]) give the
    outputs 0, 0, 0, 1; the remainder after the third is 15099495/2^24 and
    after the fourth 13421776/2^26, which are 0.9 and 0.2 to seven decimal
    places (they differ from them by less than 5/10^8). *)
Theorem scroll_wheel_accumulates (cfg : Metric) (now : Time) (s : Scroll.t)
  (es : list pointer.Event) (total : Z) :
  Scroll.axis s = Horizontal \/ Scroll.axis s = Vertical ->
  Forall (fun e => pointer.Kind_ e = pointer.Scroll) es ->
  let acc := Scroll.accumulate (Scroll.scroll s)
               (map (Scroll.axis_delta (Scroll.axis s)) es) in
  Scroll.loop cfg now s (map event.Pointer es) total =
    (Scroll.set_scroll s (snd acc), fold_left GoInt.add (fst acc) total) /\
  (forall e : pointer.Event,
     pointer.Kind_ e = pointer.Scroll ->
     let sum := F32.add (Scroll.scroll s) (Scroll.axis_delta (Scroll.axis s) e) in
     snd (Scroll.handle cfg now s e) = F32.to_int unrepresentable sum /\
     Scroll.scroll (fst (Scroll.handle cfg now s e)) =
       F32.sub sum (F32.of_int (F32.to_int unrepresentable sum))) /\
  (forall (e : pointer.Event) (n : Z),
     pointer.Kind_ e = pointer.Scroll ->
     F32.valid (Scroll.scroll s) = true ->
     F32.valid (Scroll.axis_delta (Scroll.axis s) e) = true ->
     let sum := F32.add (Scroll.scroll s) (Scroll.axis_delta (Scroll.axis s) e) in
     F32.trunc sum = Some n ->
     GoInt.in_range n ->
     let s' := fst (Scroll.handle cfg now s e) in
     snd (Scroll.handle cfg now s e) = n /\
     (Qabs (inject_Z n) <= Qabs (F32.to_Q sum))%Q /\
     (F32.to_Q (Scroll.scroll s') == F32.to_Q sum - inject_Z n)%Q /\
     (Qabs (F32.to_Q (Scroll.scroll s')) < 1)%Q /\
     F32.valid (Scroll.scroll s') = true) /\
  (let x := F32.of_ratio 3 10 in
   Scroll.accumulate F32.zero [x; x; x] =
     ([0; 0; 0], S754_finite false 15099495 (-24)) /\
   Scroll.accumulate (S754_finite false 15099495 (-24)) [x] =
     ([1], S754_finite false 13421776 (-26)) /\
   (Qabs (F32.to_Q (S754_finite false 15099495 (-24)) - (9 # 10))
    < 5 # 100000000)%Q /\
   (Qabs (F32.to_Q (S754_finite false 13421776 (-26)) - (2 # 10))
    < 5 # 100000000)%Q).
Proof.
  intros A F acc. split; [| split; [| split]].
  - now apply scroll_wheel_loop.
  - intros e K. rewrite (scroll_wheel_step cfg now s e A K). split; reflexivity.
  - intros e n K Vs Vd. now apply scroll_wheel_exact.
  - cbv zeta. repeat split; vm_compute; reflexivity.
Qed.

End Properties.

(** * Instances on concrete inputs *)

Lemma click_press_count_witness :
  let c := Examples.clicked_once in
  let e := Examples.touch pointer.Press 1%N (50 * time.Millisecond) in
  pointer.Kind_ e = pointer.Press /\
  Click.pressed c = false /\
  (pointer.Source_ e = pointer.Mouse ->
   pointer.Buttons_ e = pointer.ButtonPrimary) /\
  (Click.hovered c = true -> Click.pid c = pointer.PointerID e) /\
  Click.clicks (fst (Click.handle (ext := Examples.plain) c e)) = 2.
Proof.
  intros c e.
  assert (h1 : pointer.Kind_ e = pointer.Press) by reflexivity.
  assert (h2 : Click.pressed c = false) by reflexivity.
  assert (h3 : pointer.Source_ e = pointer.Mouse ->
               pointer.Buttons_ e = pointer.ButtonPrimary)
    by (intros H; discriminate H).
  assert (h4 : Click.hovered c = true -> Click.pid c = pointer.PointerID e)
    by (intros H; discriminate H).
  refine (conj h1 (conj h2 (conj h3 (conj h4 _)))).
  destruct (click_press_count (ext := Examples.plain) c e h1 h2 h3 h4)
    as [H _].
  destruct (H ltac:(vm_compute; reflexivity)) as [_ H'].
  rewrite H'; [reflexivity |].
  split; vm_compute; discriminate.
Defined.



Lemma scroll_release_needs_no_drag_witness :
  let s := Examples.scrolled_before in
  let e := Examples.touch pointer.Release 1%N 0 in
  pointer.Kind_ e = pointer.Release /\
  Scroll.pid s = pointer.PointerID e /\
  Scroll.dragging s = false /\
  Scroll.flinger (fst (Scroll.handle (ext := Examples.plain) 1 0 s e))
    = Some (F32.of_int 100).
Proof.
  intros s e.
  assert (h1 : pointer.Kind_ e = pointer.Release) by reflexivity.
  assert (h2 : Scroll.pid s = pointer.PointerID e) by reflexivity.
  refine (conj h1 (conj h2 (conj eq_refl _))).
  destruct (scroll_release_needs_no_drag (ext := Examples.plain) 1 0 s e h1 h2)
    as (_ & _ & _ & _ & H & _).
  rewrite H; vm_compute; reflexivity.
Defined.

Lemma scroll_drag_step_witness :
  let s := Examples.scrolling 3 in
  let e := Examples.touch_at pointer.Drag 1%N pointer.Normal (Examples.pt 0 0) in
  pointer.Kind_ e = pointer.Drag /\
  Scroll.dragging s = true /\
  Scroll.pid s = pointer.PointerID e /\
  Scroll.grab (fst (Scroll.handle (ext := Examples.plain) 1 0 s e)) = true.
Proof.
  intros s e.
  assert (h1 : pointer.Kind_ e = pointer.Drag) by reflexivity.
  assert (h2 : Scroll.dragging s = true) by reflexivity.
  assert (h3 : Scroll.pid s = pointer.PointerID e) by reflexivity.
  refine (conj h1 (conj h2 (conj h3 _))).
  destruct (scroll_drag_step (ext := Examples.plain) 1 0 s e h1 h2 h3) as [H _].
  destruct (H eq_refl) as (_ & _ & G).
  apply G. right. left. vm_compute. discriminate.
Defined.

Lemma drag_grab_latch_witness :
  let d := Examples.dragging_from_10_10 in
  let drag_to (x y : Z) :=
    event.Pointer
      (Examples.touch_at pointer.Drag 1%N pointer.Normal (Examples.pt x y)) in
  let near := [ drag_to 12 10; drag_to 13 10 ] in
  let far := [ drag_to 12 10; drag_to 14 10; drag_to 11 10 ] in
  Drag.dragging d = true /\
  Forall (fun e => Drag.ends_gesture d e = false) (pointer_events near) /\
  Forall (fun e => Drag.ends_gesture d e = false) (pointer_events far) /\
  Drag.grab (fst (Drag.Update (ext := Examples.plain) 1 near Both d)) = false /\
  Drag.grab (fst (Drag.Update (ext := Examples.plain) 1 far Both d)) = true.
Proof.
  intros d drag_to near far.
  assert (h1 : Drag.dragging d = true) by reflexivity.
  assert (h2 : Forall (fun e => Drag.ends_gesture d e = false) (pointer_events near))
    by (repeat constructor).
  assert (h3 : Forall (fun e => Drag.ends_gesture d e = false) (pointer_events far))
    by (repeat constructor).
  refine (conj h1 (conj h2 (conj h3 _))).
  destruct (drag_grab_latch (ext := Examples.plain) 1 Both d near h1 h2) as [N _].
  destruct (drag_grab_latch (ext := Examples.plain) 1 Both d far h1 h3)
    as (_ & X & _).
  split.
  - apply N; [reflexivity |]. repeat constructor.
  - apply X. apply Exists_cons_tl, Exists_cons_hd.
    split; [| reflexivity].
    split; [reflexivity |]. split; [reflexivity | discriminate].
Defined.

Lemma drag_axis_pinned_witness :
  let d := Examples.dragging_from_10_10 in
  let q := [ event.Pointer
               (Examples.touch_at pointer.Drag 1%N pointer.Normal (Examples.pt 25 99)) ] in
  let out := Examples.touch_at pointer.Drag 1%N pointer.Normal (Examples.pt 25 10) in
  Drag.dragging d = true /\
  Forall (fun e => Drag.ends_gesture d e = false) (pointer_events q) /\
  In out (snd (Drag.Update (ext := Examples.plain) 1 q Horizontal d)) /\
  pointer.Kind_ out = pointer.Drag /\
  f32.Y (pointer.Position out) = F32.of_int 10.
Proof.
  intros d q out.
  assert (h1 : Drag.dragging d = true) by reflexivity.
  assert (h2 : Forall (fun e => Drag.ends_gesture d e = false) (pointer_events q))
    by (repeat constructor).
  assert (h3 : In out (snd (Drag.Update (ext := Examples.plain) 1 q Horizontal d)))
    by (left; reflexivity).
  assert (h4 : pointer.Kind_ out = pointer.Drag) by reflexivity.
  refine (conj h1 (conj h2 (conj h3 (conj h4 _)))).
  destruct (drag_axis_pinned (ext := Examples.plain) 1 Horizontal d q out h1 h2 h3 h4)
    as [_ H].
  exact (H eq_refl eq_refl).
Defined.

Lemma scroll_wheel_accumulates_witness :
  let s := Examples.at_rest in
  let e := Examples.wheel Examples.three_tenths in
  let es := [e; e; e; e] in
  (Scroll.axis s = Horizontal \/ Scroll.axis s = Vertical) /\
  Forall (fun e => pointer.Kind_ e = pointer.Scroll) es /\
  snd (Scroll.loop (ext := Examples.plain) 1 0 s (map event.Pointer es) 0) = 1.
Proof.
  intros s e es.
  assert (h1 : Scroll.axis s = Horizontal \/ Scroll.axis s = Vertical)
    by (left; reflexivity).
  assert (h2 : Forall (fun e => pointer.Kind_ e = pointer.Scroll) es)
    by (repeat constructor).
  refine (conj h1 (conj h2 _)).
  destruct (scroll_wheel_accumulates (ext := Examples.plain) 1 0 s es 0 h1 h2)
    as [H _].
  rewrite H. vm_compute. reflexivity.
Defined.

Lemma foreign_pointer_events_witness :
  let release := Examples.touch pointer.Release 2%N 0 in
  let press := Examples.touch pointer.Press 2%N 0 in
  let d := Examples.dragging_from_10_10 in
  let lifted := Drag.set_pressed d false in
  pointer.Kind_ release <> pointer.Cancel /\
  pointer.Kind_ press <> pointer.Cancel /\
  Drag.handle (ext := Examples.plain) 1 Both d release = (lifted, []) /\
  Drag.handle (ext := Examples.plain) 1 Both lifted press = (d, []) /\
  Scroll.handle (ext := Examples.plain) 1 0 (Examples.scrolling 0) release
    = (Examples.scrolling 0, 0).
Proof.
  intros release press d lifted.
  assert (h1 : pointer.Kind_ release <> pointer.Cancel) by discriminate.
  assert (h2 : pointer.Kind_ press <> pointer.Cancel) by discriminate.
  refine (conj h1 (conj h2 _)).
  destruct (foreign_pointer_events (ext := Examples.plain) release h1)
    as (_ & Hd & Hs).
  destruct (foreign_pointer_events (ext := Examples.plain) press h2)
    as (_ & Hp & _).
  split; [| split].
  - destruct (Hd 1 Both d eq_refl ltac:(discriminate))
      as (_ & _ & _ & _ & _ & H & _).
    exact (proj1 (H eq_refl)).
  - destruct (Hp 1 Both lifted eq_refl ltac:(discriminate))
      as (_ & _ & _ & _ & _ & _ & H & _).
    exact (proj1 (H eq_refl (or_intror eq_refl))).
  - apply Hs; [reflexivity | discriminate | discriminate].
Defined.

(** A wheel event is counted by Scroll whatever its pointer id, also
    during the drag of another pointer. *)
Example scroll_foreign_wheel_counts :
  let s := Examples.scrolling 0 in
  let e := Examples.wheel (F32.of_int 2) in
  pointer.PointerID e <> Scroll.pid s /\
  snd (Scroll.handle (ext := Examples.plain) 1 0 s e) = 2.
Proof. split; [discriminate | vm_compute; reflexivity]. Qed.

(** Drag forwards the kinds it has no case for, whatever their pointer. *)
Example drag_forwards_other_kinds :
  let d := Examples.dragging_from_10_10 in
  let e := Examples.touch pointer.Move 2%N 0 in
  Drag.handle (ext := Examples.plain) 1 Both d e = (d, [e]).
Proof. reflexivity. Qed.

(** * Where the claims as worded fail *)

(** C3 as worded: with the stored position 3 and a slop of 3 pixels, a Drag
    below Grabbed at position 0 is a difference of exactly the slop, which
    does not exceed it, and [grab] is set all the same. *)
Lemma scroll_drag_grabs_at_slop :
  let s := Examples.scrolling 3 in
  let e := Examples.touch_at pointer.Drag 1%N pointer.Normal (Examples.pt 0 0) in
  let v := F32.round_to_int Examples.least_int
             (Scroll.val s (pointer.Position e)) in
  Scroll.dragging s = true /\ Scroll.pid s = pointer.PointerID e /\
  pointer.Priority_ltb (pointer.Priority_ e) pointer.Grabbed = true /\
  Scroll.grab s = false /\
  ~ (Z.abs (Scroll.last s - v) > Dp (Externals := Examples.plain) 1 touchSlop) /\
  Scroll.grab (fst (Scroll.handle (ext := Examples.plain) 1 0 s e)) = true.
Proof.
  cbv zeta. do 4 (split; [reflexivity |]).
  split; [vm_compute; intros H; discriminate H | reflexivity].
Qed.

(** C4 as worded: a Drag recognizer dragging pointer 1 from (10,10) with a
    slop of 3 pixels.  Along the horizontal axis a Drag at (10,110) is a
    hundred pixels from the start, and a Drag at (13, 10 + 2^-12) with both
    axes free is further than three pixels from it: in both the squared
    Euclidean displacement exceeds the squared slop, and [grab] is not
    set. *)
Lemma drag_beyond_slop_without_grab :
  let d := Examples.dragging_from_10_10 in
  let across := Examples.touch_at pointer.Drag 1%N pointer.Normal
                  (Examples.pt 10 110) in
  let close := Examples.touch_at pointer.Drag 1%N pointer.Normal
                 (f32.Pt (F32.of_int 13) just_above_10) in
  let slop := Dp (Externals := Examples.plain) 1 touchSlop in
  Drag.dragging d = true /\ Drag.grab d = false /\
  Drag.ends_gesture d across = false /\ Drag.below_grabbed d across = true /\
  (exact_sq_slop slop
   < exact_sq_displacement (Drag.start d) (pointer.Position across))%Q /\
  Drag.grab (fst (Drag.Update (ext := Examples.plain) 1
                    [event.Pointer across] Horizontal d)) = false /\
  Drag.ends_gesture d close = false /\ Drag.below_grabbed d close = true /\
  (exact_sq_slop slop
   < exact_sq_displacement (Drag.start d) (pointer.Position close))%Q /\
  Drag.grab (fst (Drag.Update (ext := Examples.plain) 1
                    [event.Pointer close] Both d)) = false.
Proof.
  cbv zeta. do 4 (split; [reflexivity |]).
  split; [vm_compute; reflexivity |]. split; [vm_compute; reflexivity |].
  do 2 (split; [reflexivity |]).
  split; [vm_compute; reflexivity | vm_compute; reflexivity].
Qed.

(** C8 as worded: a Drag recognizer dragging pointer 1 and pressed gets
    the Release of pointer 2; its [pressed] is cleared. *)
Lemma drag_foreign_release_clears_pressed :
  let d := Examples.dragging_from_10_10 in
  let e := Examples.touch pointer.Release 2%N 0 in
  Drag.dragging d = true /\
  pointer.Kind_ e <> pointer.Cancel /\
  pointer.PointerID e <> Drag.pid d /\
  Drag.pressed d = true /\
  Drag.pressed (fst (Drag.handle (ext := Examples.plain) 1 Both d e)) = false /\
  fst (Drag.handle (ext := Examples.plain) 1 Both d e) <> d.
Proof.
  cbv zeta. split; [reflexivity |].
  split; [discriminate |]. split; [discriminate |].
  split; [reflexivity |]. split; [reflexivity |].
  intros H. apply (f_equal Drag.pressed) in H. discriminate H.
Qed.

(** * Properties of the rest of the package and of its callers *)

(** ** Hover *)

Lemma hover_loop_fold (q : list event.Event) :
  forall h : Hover.t,
    Hover.loop h q = fold_left Hover.handle (pointer_events q) h.
Proof.
  induction q as [| [e |] q IH]; intros h; cbn; auto.
Qed.

(** X1. When the recognizer is free or entered by the pointer [p], and all
    events are of [p], [Hover.Update] returns what the last Enter, Leave or
    Cancel among them says: true after an Enter, false after a Leave or
    Cancel, the old flag when there is none. *)
Theorem hover_single_pointer (h : Hover.t) (q : list event.Event)
  (p : pointer.ID) :
  (Hover.entered h = true -> Hover.pid h = p) ->
  Forall (fun e => pointer.PointerID e = p) (pointer_events q) ->
  snd (Hover.Update h q) = Hover.last_word (Hover.entered h) (pointer_events q).
Proof.
  unfold Hover.Update, Hover.last_word. cbn [snd].
  rewrite hover_loop_fold.
  revert h. induction (pointer_events q) as [| e es IH]; intros h O F; cbn.
  - reflexivity.
  - inversion F as [| ? ? Pe Fes]; subst.
    rewrite IH; [| | exact Fes].
    + f_equal. unfold Hover.handle.
      destruct (pointer.Kind_ e); cbn; try reflexivity;
        destruct (Hover.entered h) eqn:E; cbn;
        rewrite ?(O eq_refl), ?N.eqb_refl; cbn; rewrite ?E; reflexivity.
    + unfold Hover.handle.
      destruct (pointer.Kind_ e); cbn; try exact O;
        destruct (Hover.entered h) eqn:E; cbn;
        rewrite ?(O eq_refl), ?N.eqb_refl; cbn;
        intros; try reflexivity; try discriminate; congruence.
Qed.

(** X2. Once entered, the recognizer stays as it is through any events
    that hold no Leave or Cancel of its own pointer: the events of other
    pointers, theirs Leave and Cancel included, change nothing, and
    [Update] returns true. *)
Theorem hover_keeps_owner (h : Hover.t) (q : list event.Event) :
  Hover.entered h = true ->
  Forall (fun e => pointer.Kind_ e = pointer.Leave \/
                   pointer.Kind_ e = pointer.Cancel ->
                   pointer.PointerID e <> Hover.pid h)
         (pointer_events q) ->
  Hover.Update h q = (h, true).
Proof.
  intros E F. unfold Hover.Update. rewrite hover_loop_fold.
  assert (H : fold_left Hover.handle (pointer_events q) h = h).
  { induction (pointer_events q) as [| e es IH]; cbn; [reflexivity |].
    inversion F as [| ? ? Fe Fes]; subst.
    assert (S : Hover.handle h e = h).
    { unfold Hover.handle. rewrite E. cbn [negb andb].
      destruct (pointer.Kind_ e) eqn:K; try reflexivity.
      - destruct (N.eqb_spec (Hover.pid h) (pointer.PointerID e)) as [P | P];
          [| reflexivity].
        exfalso. apply (Fe (or_intror eq_refl)). now symmetry.
      - destruct (Hover.pid h =? pointer.PointerID e)%N; [| reflexivity].
        destruct h; cbn in *. now subst.
      - destruct (N.eqb_spec (Hover.pid h) (pointer.PointerID e)) as [P | P];
          [| reflexivity].
        exfalso. apply (Fe (or_introl eq_refl)). now symmetry. }
    rewrite S. now apply IH. }
  rewrite H, E. reflexivity.
Qed.

(** ** Click: what a run can emit *)

Section More.
Context {ext : Externals}.

(** The loop of [Click.Update] appends to whatever was collected. *)
Lemma click_loop_acc (q : list event.Event) :
  forall (c : Click.t) (acc : list ClickEvent),
    Click.loop c q acc =
    (fst (Click.loop c q []), acc ++ snd (Click.loop c q [])).
Proof.
  induction q as [| [e |] q IH]; intros c acc; cbn.
  - now rewrite app_nil_r.
  - destruct (Click.handle c e) as [c' out].
    rewrite (IH c' (acc ++ out)), (IH c' out). cbn.
    now rewrite app_assoc.
  - apply IH.
Qed.

Lemma click_trace_app (evs1 evs2 : list ClickEvent) :
  forall (p : bool) (n : Z) (p1 : bool) (n1 : Z),
    click_trace p n evs1 = Some (p1, n1) ->
    click_trace p n (evs1 ++ evs2) = click_trace p1 n1 evs2.
Proof.
  induction evs1 as [| ev evs1 IH]; intros p n p1 n1 H; cbn in *.
  - now inversion H.
  - destruct (Kind ev =? KindPress)%N.
    + destruct p; [discriminate | now apply IH].
    + destruct (Kind ev =? KindClick)%N.
      * destruct (p && (NumClicks ev =? n)); [now apply IH | discriminate].
      * destruct (Kind ev =? KindCancel)%N; [| discriminate].
        destruct p; [now apply IH | discriminate].
Qed.

Lemma click_handle_trace (c : Click.t) (e : pointer.Event) :
  click_trace (Click.pressed c) (Click.clicks c) (snd (Click.handle c e))
  = Some (Click.pressed (fst (Click.handle c e)),
          Click.clicks (fst (Click.handle c e))).
Proof.
  unfold Click.handle.
  destruct (pointer.Kind_ e); try reflexivity.
  - destruct (Click.pressed c) eqn:P; cbn; rewrite ?P; reflexivity.
  - destruct (Click.pressed c) eqn:P; cbn; rewrite ?P; [reflexivity |].
    destruct (_ && _); cbn; rewrite ?P; [reflexivity |].
    destruct (negb (Click.hovered c)); cbn;
      destruct (negb _); cbn; rewrite ?P; reflexivity.
  - destruct (Click.pressed c) eqn:P; cbn; rewrite ?P; [| reflexivity].
    destruct (negb (_ =? _)%N); cbn; rewrite ?P; [reflexivity |].
    destruct (negb (Click.entered c) || Click.hovered c); cbn;
      rewrite ?Z.eqb_refl; reflexivity.
  - destruct (negb (Click.pressed c)); cbn; destruct (_ =? _)%N; reflexivity.
  - destruct (negb (Click.pressed c)); cbn; destruct (_ =? _)%N; reflexivity.
Qed.

(** X3. The events [Click.Update] returns are well ordered: a KindPress
    comes only when no press is in progress, a KindClick or KindCancel only
    when one is, and a KindClick carries the count of the KindPress that
    began it.  Read from the state before, the events also tell the state
    after: [Pressed] and the click count. *)
Theorem click_update_trace (c : Click.t) (q : list event.Event) :
  click_trace (Click.pressed c) (Click.clicks c) (snd (Click.Update c q))
  = Some (Click.pressed (fst (Click.Update c q)),
          Click.clicks (fst (Click.Update c q))).
Proof.
  unfold Click.Update. revert c.
  induction q as [| [e |] q IH]; intros c; cbn.
  - reflexivity.
  - pose proof (click_handle_trace c e) as H.
    destruct (Click.handle c e) as [c' out]. cbn [fst snd] in H.
    rewrite click_loop_acc. cbn [fst snd app].
    rewrite (click_trace_app out _ _ _ _ _ H). apply IH.
  - apply IH.
Qed.

(** ** Frames can be split *)

Lemma drag_loop_acc (cfg : Metric) (axis : Axis) (q : list event.Event) :
  forall (d : Drag.t) (acc : list pointer.Event),
    Drag.loop cfg axis d q acc =
    (fst (Drag.loop cfg axis d q []), acc ++ snd (Drag.loop cfg axis d q [])).
Proof.
  induction q as [| [e |] q IH]; intros d acc; cbn.
  - now rewrite app_nil_r.
  - destruct (Drag.handle cfg axis d e) as [d' out].
    rewrite (IH d' (acc ++ out)), (IH d' out). cbn.
    now rewrite app_assoc.
  - apply IH.
Qed.

(** X4. Handing a recognizer the events of a frame in two calls of
    [Update] is the same as handing them over in one: the state is that of
    the second call and the events returned are those of the first
    followed by those of the second.  This holds of Click, of Drag (for a
    fixed metric and axis) and of Hover. *)
Theorem update_splits (q1 q2 : list event.Event) :
  (forall c : Click.t,
     Click.Update c (q1 ++ q2) =
     (fst (Click.Update (fst (Click.Update c q1)) q2),
      snd (Click.Update c q1) ++ snd (Click.Update (fst (Click.Update c q1)) q2))) /\
  (forall (cfg : Metric) (axis : Axis) (d : Drag.t),
     Drag.Update cfg (q1 ++ q2) axis d =
     (fst (Drag.Update cfg q2 axis (fst (Drag.Update cfg q1 axis d))),
      snd (Drag.Update cfg q1 axis d)
      ++ snd (Drag.Update cfg q2 axis (fst (Drag.Update cfg q1 axis d))))) /\
  (forall h : Hover.t,
     Hover.Update h (q1 ++ q2) = Hover.Update (fst (Hover.Update h q1)) q2).
Proof.
  split; [| split].
  - unfold Click.Update. induction q1 as [| [e |] q1 IH]; intros c; cbn.
    + now destruct (Click.loop c q2 []).
    + destruct (Click.handle c e) as [c' out]. cbn.
      rewrite (click_loop_acc (q1 ++ q2)), (click_loop_acc q1), IH. cbn.
      now rewrite app_assoc.
    + apply IH.
  - intros cfg axis. unfold Drag.Update.
    induction q1 as [| [e |] q1 IH]; intros d; cbn.
    + now destruct (Drag.loop cfg axis d q2 []).
    + destruct (Drag.handle cfg axis d e) as [d' out]. cbn.
      rewrite (drag_loop_acc cfg axis (q1 ++ q2)), (drag_loop_acc cfg axis q1), IH.
      cbn. now rewrite app_assoc.
    + apply IH.
  - unfold Hover.Update. cbn [fst].
    induction q1 as [| [e |] q1 IH]; intros h; cbn; auto.
Qed.

(** ** Drag: what is forwarded, and what the flags keep *)

(** What one step forwards: nothing, or the event, with its position
    pinned when it is a Drag. *)
Lemma drag_handle_out (cfg : Metric) (axis : Axis) (d : Drag.t)
  (e : pointer.Event) :
  snd (Drag.handle cfg axis d e) = [] \/
  snd (Drag.handle cfg axis d e) = [e] \/
  snd (Drag.handle cfg axis d e)
    = [Drag.set_Position e (Drag.pin axis (Drag.start d) (pointer.Position e))].
Proof.
  unfold Drag.handle.
  destruct (pointer.Kind_ e); cbn; auto.
  - destruct (_ || _); cbn; auto.
  - destruct (negb _); cbn; auto. destruct (Drag.dragging d); cbn; auto.
  - destruct (_ || _); cbn; auto.
  - destruct (_ || _); cbn; auto.
Qed.

(** X5. [Drag.Update] returns events of the queue, in their order, some
    left out and none added or repeated: up to their positions the events
    returned are a subsequence of the pointer events received, and with
    the axis [Both] they are one as they stand. *)
Theorem drag_forwards_subsequence (cfg : Metric) (axis : Axis) (d : Drag.t)
  (q : list event.Event) :
  subseq (map without_position (snd (Drag.Update cfg q axis d)))
         (map without_position (pointer_events q)) /\
  (axis = Both ->
   subseq (snd (Drag.Update cfg q axis d)) (pointer_events q)).
Proof.
  unfold Drag.Update. split.
  - revert d. induction q as [| [e |] q IH]; intros d; cbn.
    + constructor.
    + pose proof (drag_handle_out cfg axis d e) as H.
      destruct (Drag.handle cfg axis d e) as [d' out]. cbn [snd] in H.
      rewrite drag_loop_acc. cbn [snd]. specialize (IH d').
      destruct H as [-> | [-> | ->]]; cbn [app map].
      * now apply subseq_skip.
      * now apply subseq_keep.
      * now apply subseq_keep.
    + apply IH.
  - intros ->. revert d. induction q as [| [e |] q IH]; intros d; cbn.
    + constructor.
    + pose proof (drag_handle_out cfg Both d e) as H.
      destruct (Drag.handle cfg Both d e) as [d' out]. cbn [snd] in H.
      rewrite drag_loop_acc. cbn [snd]. specialize (IH d').
      destruct H as [-> | [-> | ->]]; cbn [app].
      * now apply subseq_skip.
      * now apply subseq_keep.
      * replace (Drag.set_Position e _) with e by (destruct e; reflexivity).
        now apply subseq_keep.
    + apply IH.
Qed.

(** The two flags a user reads and the grab request all need a drag. *)
Lemma drag_flags_step (cfg : Metric) (axis : Axis) (d : Drag.t)
  (e : pointer.Event) :
  (Drag.pressed d = true -> Drag.dragging d = true) /\
  (Drag.grab d = true -> Drag.dragging d = true) ->
  let d' := fst (Drag.handle cfg axis d e) in
  (Drag.pressed d' = true -> Drag.dragging d' = true) /\
  (Drag.grab d' = true -> Drag.dragging d' = true).
Proof.
  intros [Hp Hg]. unfold Drag.handle.
  destruct (Drag.dragging d) eqn:D;
    destruct (pointer.Kind_ e);
    cbn [Drag.set_pressed Drag.dragging Drag.pid Drag.start Drag.grab];
    rewrite ?D; cbn [negb orb];
    repeat match goal with
           | |- context [if ?b then _ else _] => destruct b
           end;
    cbn; rewrite ?D; split; intros; try reflexivity; try discriminate; auto.
Qed.

(** X6. From the zero value on, through any calls of [Update], a Drag
    recognizer that reports [Pressed] also reports [Dragging], and it asks
    for the grab only while dragging. *)
Theorem drag_flags_need_drag (cfg : Metric) (axis : Axis) (d : Drag.t)
  (q : list event.Event) :
  ((Drag.Pressed Drag.zero = true -> Drag.Dragging Drag.zero = true) /\
   (Drag.grab Drag.zero = true -> Drag.Dragging Drag.zero = true)) /\
  ((Drag.Pressed d = true -> Drag.Dragging d = true) /\
   (Drag.grab d = true -> Drag.Dragging d = true) ->
   let d' := fst (Drag.Update cfg q axis d) in
   (Drag.Pressed d' = true -> Drag.Dragging d' = true) /\
   (Drag.grab d' = true -> Drag.Dragging d' = true)).
Proof.
  split; [split; discriminate |].
  unfold Drag.Update, Drag.Pressed, Drag.Dragging. rewrite drag_loop_state.
  revert d. induction (pointer_events q) as [| e es IH]; intros d Inv; cbn.
  - exact Inv.
  - apply IH. now apply drag_flags_step.
Qed.

(** ** Scroll: what a drag adds up to *)

Lemma wrap_add_wrap_r (a b : Z) : GoInt.wrap (a + GoInt.wrap b) = GoInt.wrap (a + b).
Proof.
  unfold GoInt.wrap.
  replace (a + ((b + 2 ^ 63) mod 2 ^ 64 - 2 ^ 63) + 2 ^ 63)
    with (a + (b + 2 ^ 63) mod 2 ^ 64) by lia.
  rewrite Z.add_mod_idemp_r by lia. f_equal. f_equal. lia.
Qed.

Lemma wrap_add_wrap_l (a b : Z) : GoInt.wrap (GoInt.wrap a + b) = GoInt.wrap (a + b).
Proof. rewrite Z.add_comm, wrap_add_wrap_r. f_equal. lia. Qed.

(** Outside the Press and wheel cases a step adds to the total exactly how
    far it moves [last] back. *)
Lemma scroll_step_moves_last (cfg : Metric) (now : Time) (s : Scroll.t)
  (e : pointer.Event) :
  pointer.Kind_ e <> pointer.Press ->
  pointer.Kind_ e <> pointer.Scroll ->
  snd (Scroll.handle cfg now s e)
  = GoInt.wrap (Scroll.last s - Scroll.last (fst (Scroll.handle cfg now s e))).
Proof.
  intros NP NS. unfold Scroll.handle.
  destruct (pointer.Kind_ e); try contradiction;
    repeat match goal with
           | |- context [let '(_, _) := ?p in _] => destruct p
           | |- context [if ?b then _ else _] => destruct b
           end;
    cbn [fst snd Scroll.last Scroll.set_last Scroll.set_estimator
         Scroll.set_grab Scroll.end_drag Scroll.set_flinger];
    rewrite ?Z.sub_diag; reflexivity.
Qed.

(** X7. Over the events of a frame that hold no Press and no wheel event,
    what the loop of [Scroll.Update] adds to the total is how far [last],
    the position it keeps, has moved back, whatever the priorities, the
    pointers and the order of the events were: the sum of the steps is the
    net movement (in Go's integers; as it stands when that fits). *)
Theorem scroll_total_is_net_movement (cfg : Metric) (now : Time)
  (s : Scroll.t) (q : list event.Event) (total : Z) :
  GoInt.in_range total ->
  Forall (fun e => pointer.Kind_ e <> pointer.Press /\
                   pointer.Kind_ e <> pointer.Scroll) (pointer_events q) ->
  let s' := fst (Scroll.loop cfg now s q total) in
  snd (Scroll.loop cfg now s q total)
    = GoInt.wrap (total + (Scroll.last s - Scroll.last s')) /\
  (GoInt.in_range (total + (Scroll.last s - Scroll.last s')) ->
   snd (Scroll.loop cfg now s q total) = total + (Scroll.last s - Scroll.last s')).
Proof.
  intros R F s'. subst s'.
  assert (H : forall (q : list event.Event) (s0 : Scroll.t) (t0 : Z),
             Forall (fun e => pointer.Kind_ e <> pointer.Press /\
                              pointer.Kind_ e <> pointer.Scroll) (pointer_events q) ->
             GoInt.wrap (snd (Scroll.loop cfg now s0 q t0))
             = GoInt.wrap (t0 + (Scroll.last s0
                                 - Scroll.last (fst (Scroll.loop cfg now s0 q t0)))) /\
             (snd (Scroll.loop cfg now s0 q t0) = t0 \/
              GoInt.in_range (snd (Scroll.loop cfg now s0 q t0)))).
  { clear. induction q as [| [e |] q IH]; intros s0 t0 F; cbn.
    - rewrite Z.sub_diag, Z.add_0_r. auto.
    - cbn in F. inversion F as [| ? ? [NP NS] Fq]; subst.
      pose proof (scroll_step_moves_last cfg now s0 e NP NS) as St.
      destruct (Scroll.handle cfg now s0 e) as [s1 n]. cbn [fst snd] in St.
      destruct (IH s1 (GoInt.add t0 n) Fq) as [E D]. split.
      + rewrite E. unfold GoInt.add. rewrite St.
        rewrite wrap_add_wrap_r, wrap_add_wrap_l. f_equal. lia.
      + right. destruct D as [-> | D]; [| exact D].
        unfold GoInt.add, GoInt.in_range, GoInt.wrap, GoInt.min_int, GoInt.max_int.
        pose proof (Z.mod_pos_bound (t0 + n + 2 ^ 63) (2 ^ 64) ltac:(lia)). lia.
    - now apply IH. }
  destruct (H q s total F) as [E D].
  assert (V : snd (Scroll.loop cfg now s q total)
              = GoInt.wrap (snd (Scroll.loop cfg now s q total))).
  { symmetry. apply wrap_in_range. destruct D as [-> | D]; assumption. }
  split.
  - rewrite V. exact E.
  - intros R'. rewrite V, E. now apply wrap_in_range.
Qed.

(** ** Scroll: what [Update] keeps *)

Lemma scroll_step_keeps (cfg : Metric) (now : Time) (s : Scroll.t)
  (e : pointer.Event) :
  let s' := fst (Scroll.handle cfg now s e) in
  Scroll.axis s' = Scroll.axis s /\
  ((Scroll.grab s = true -> Scroll.dragging s = true) ->
   Scroll.grab s' = true -> Scroll.dragging s' = true).
Proof.
  unfold Scroll.handle.
  destruct (Scroll.dragging s) eqn:D;
    destruct (pointer.Kind_ e); cbn [negb orb andb];
    repeat match goal with
           | |- context [let '(_, _) := ?p in _] => destruct p
           | |- context [if ?b then _ else _] => destruct b
           end;
    cbn; rewrite ?D; split; intros; try reflexivity; try discriminate; auto.
Qed.

(** X8. After [Scroll.Update] the recognizer holds the axis it was called
    with, whether the call took the events or dropped them for a change of
    axis; and, from the zero value on, it asks for the grab only during a
    drag. *)
Theorem scroll_update_keeps (cfg : Metric) (q : list event.Event) (now : Time)
  (ax : Axis) (s : Scroll.t) :
  let s' := fst (Scroll.Update cfg q now ax s) in
  Scroll.axis s' = ax /\
  (Scroll.grab Scroll.zero = true -> Scroll.dragging Scroll.zero = true) /\
  ((Scroll.grab s = true -> Scroll.dragging s = true) ->
   Scroll.grab s' = true -> Scroll.dragging s' = true).
Proof.
  assert (L : forall (q : list event.Event) (s0 : Scroll.t) (t0 : Z),
             Scroll.axis (fst (Scroll.loop cfg now s0 q t0)) = Scroll.axis s0 /\
             ((Scroll.grab s0 = true -> Scroll.dragging s0 = true) ->
              Scroll.grab (fst (Scroll.loop cfg now s0 q t0)) = true ->
              Scroll.dragging (fst (Scroll.loop cfg now s0 q t0)) = true)).
  { clear. induction q as [| [e |] q IH]; intros s0 t0; cbn; auto.
    pose proof (scroll_step_keeps cfg now s0 e) as St.
    destruct (Scroll.handle cfg now s0 e) as [s1 n]. cbn [fst] in St.
    destruct St as [A G]. destruct (IH s1 (GoInt.add t0 n)) as [A' G'].
    split; [congruence | auto]. }
  unfold Scroll.Update.
  destruct (N.eqb_spec (Scroll.axis s) ax) as [A | A]; cbn [negb].
  - destruct (L q s 0) as [A' G'].
    destruct (Scroll.loop cfg now s q 0) as [s1 total]. cbn [fst] in *.
    destruct (Tick (Scroll.flinger s1) now) as [n f]. cbn.
    repeat split; [congruence | discriminate | exact G'].
  - cbn. repeat split; [discriminate | auto].
Qed.

(** X9. Off android a pointer that is not a touch cannot drag a Scroll:
    from a recognizer that is not dragging, the events of a frame that come
    from other sources than touch and are no wheel events add nothing to
    the total and leave it not dragging, with [last], the wheel remainder
    and the axis as they were. *)
Theorem scroll_needs_touch (cfg : Metric) (now : Time) (s : Scroll.t)
  (q : list event.Event) :
  String.eqb GOOS "android" = false ->
  Scroll.dragging s = false ->
  Forall (fun e => pointer.Source_ e <> pointer.Touch /\
                   pointer.Kind_ e <> pointer.Scroll) (pointer_events q) ->
  let s' := fst (Scroll.loop cfg now s q 0) in
  snd (Scroll.loop cfg now s q 0) = 0 /\
  Scroll.dragging s' = false /\
  Scroll.last s' = Scroll.last s /\
  Scroll.scroll s' = Scroll.scroll s /\
  Scroll.axis s' = Scroll.axis s.
Proof.
  intros G D F. cbv zeta. revert s D.
  induction q as [| [e |] q IH]; intros s D; cbn.
  - auto.
  - cbn in F. inversion F as [| ? ? [NT NS] Fq]; subst.
    assert (St : snd (Scroll.handle cfg now s e) = 0 /\
                 Scroll.dragging (fst (Scroll.handle cfg now s e)) = false /\
                 Scroll.last (fst (Scroll.handle cfg now s e)) = Scroll.last s /\
                 Scroll.scroll (fst (Scroll.handle cfg now s e)) = Scroll.scroll s /\
                 Scroll.axis (fst (Scroll.handle cfg now s e)) = Scroll.axis s).
    { unfold Scroll.handle. rewrite D, G.
      destruct (pointer.Kind_ e); try contradiction;
        destruct (pointer.Source_ e); try contradiction;
        cbn [pointer.Source_eqb negb andb orb];
        repeat match goal with
               | |- context [let '(_, _) := ?p in _] => destruct p
               | |- context [if ?b then _ else _] => destruct b
               end;
        cbn; auto. }
    destruct (Scroll.handle cfg now s e) as [s1 n]. cbn [fst snd] in St.
    destruct St as (-> & D1 & L1 & S1 & A1).
    change (GoInt.add 0 0) with 0.
    destruct (IH Fq s1 D1) as (T & D2 & L2 & S2 & A2).
    repeat split; congruence.
  - now apply IH.
Qed.

(** X10. Along an axis that is neither [Horizontal] nor [Vertical] (that
    is, [Both]) the wheel does nothing: a run of wheel events leaves the
    recognizer and the total exactly as they were, as long as the carried
    remainder has no integer part to give out. *)
Theorem scroll_wheel_needs_an_axis (cfg : Metric) (now : Time) (s : Scroll.t)
  (q : list event.Event) (total : Z) :
  Scroll.axis s <> Horizontal ->
  Scroll.axis s <> Vertical ->
  F32.trunc (Scroll.scroll s) = Some 0 ->
  GoInt.in_range total ->
  Forall (fun e => pointer.Kind_ e = pointer.Scroll) (pointer_events q) ->
  Scroll.loop cfg now s q total = (s, total).
Proof.
  intros NH NV T R F.
  assert (St : forall e, pointer.Kind_ e = pointer.Scroll ->
                         Scroll.handle cfg now s e = (s, 0)).
  { intros e K. unfold Scroll.handle. rewrite K. cbv zeta.
    assert (A : Scroll.wheel_acc s e = Scroll.scroll s).
    { unfold Scroll.wheel_acc, Horizontal, Vertical in *.
      destruct (Scroll.axis s) as [| [a | a |]]; congruence. }
    rewrite A. unfold F32.to_int. rewrite T. cbn [F32.clamp].
    change ((GoInt.min_int <=? 0) && (0 <=? GoInt.max_int)) with true. cbv iota.
    assert (Z0 : F32.sub (Scroll.scroll s) (F32.of_int 0) = Scroll.scroll s).
    { destruct (Scroll.scroll s) as [[|] | [|] | | sg m ex];
        try discriminate T; reflexivity. }
    rewrite Z0. destruct s; reflexivity. }
  induction q as [| [e |] q IH]; cbn.
  - reflexivity.
  - cbn in F. inversion F as [| ? ? K Fq]; subst.
    rewrite (St e K).
    replace (GoInt.add total 0) with total.
    + exact (IH Fq).
    + unfold GoInt.add. rewrite Z.add_0_r. symmetry. now apply wrap_in_range.
  - now apply IH.
Qed.

(** X11. Each recognizer's [Update] leaves its state alone on an event of
    a kind its [Add] does not register for, [Cancel] apart, which comes
    unasked: Click then emits nothing, Scroll adds nothing, and Drag hands
    the event on as it is. *)
Theorem unregistered_kinds_are_ignored (cfg : Metric) (now : Time)
  (axis : Axis) (c : Click.t) (d : Drag.t) (s : Scroll.t) (h : Hover.t)
  (e : pointer.Event) :
  pointer.Kind_ e <> pointer.Cancel ->
  (~ In (pointer.Kind_ e) Registered.Click -> Click.handle c e = (c, [])) /\
  (~ In (pointer.Kind_ e) Registered.Drag ->
   Drag.handle cfg axis d e = (d, [e])) /\
  (~ In (pointer.Kind_ e) Registered.Scroll ->
   Scroll.handle cfg now s e = (s, 0)) /\
  (~ In (pointer.Kind_ e) Hover.Kinds -> Hover.handle h e = h).
Proof.
  intros NC.
  unfold Click.handle, Drag.handle, Scroll.handle, Hover.handle,
    Registered.Click, Registered.Drag, Registered.Scroll, Hover.Kinds.
  destruct (pointer.Kind_ e); try contradiction;
    (split; [| split; [| split]]); intros NI;
    try reflexivity; exfalso; apply NI; cbn; tauto.
Qed.

Lemma click_handle_kinds (c : Click.t) (e : pointer.Event) :
  Forall (fun ev => valid_ClickKind (Kind ev)) (snd (Click.handle c e)).
Proof.
  unfold Click.handle, valid_ClickKind.
  destruct (pointer.Kind_ e);
    repeat match goal with
           | |- context [if ?b then _ else _] => destruct b
           end;
    cbn [snd]; repeat constructor; cbn; tauto.
Qed.

(** X12. The panics of the String methods are out of reach of what the
    package hands out: every event [Click.Update] returns has a kind that
    [ClickKind.String] names, and [ScrollState.String] names the [State]
    of every Scroll. *)
Theorem String_names_what_is_returned (c : Click.t) (q : list event.Event)
  (s : Scroll.t) :
  Forall (fun ev => exists name, ClickKind_String (Kind ev) = Returns name)
         (snd (Click.Update c q)) /\
  (exists name, ScrollState_String (Scroll.State s) = Returns name).
Proof.
  split.
  - unfold Click.Update.
    assert (L : forall q c acc,
               Forall (fun ev => valid_ClickKind (Kind ev)) acc ->
               Forall (fun ev => valid_ClickKind (Kind ev))
                      (snd (Click.loop c q acc))).
    { clear. induction q as [| [e |] q IH]; intros c acc A; cbn; auto.
      pose proof (click_handle_kinds c e) as K.
      destruct (Click.handle c e) as [c' out]. cbn [snd] in K.
      apply IH. apply Forall_app. auto. }
    eapply Forall_impl; [| apply (L q c []); constructor].
    intros ev V. destruct String_methods as [N _]. exact (N _ V).
  - unfold Scroll.State.
    destruct (Active _); [eexists; reflexivity |].
    destruct (Scroll.dragging s); eexists; reflexivity.
Qed.

End More.

(** * Package [widget] *)

Section Widgets.
Context {ext : Externals}.
Variables NameReturn NameSpace : string.

(** ** Draggable *)

Lemma track_untracked (evs : list pointer.Event) :
  forall st, Draggable.last_tracked evs = None ->
             fold_left Draggable.track evs st = st.
Proof.
  induction evs as [| ev evs IH]; intros st; cbn; [reflexivity |].
  destruct (Draggable.last_tracked evs); [discriminate |].
  unfold Draggable.tracked, Draggable.track.
  destruct (pointer.Kind_ ev); try discriminate; intros _; now apply IH.
Qed.

(** What the first loop of [Update] leaves in [pos], read off the last
    tracked event. *)
Lemma track_last (evs : list pointer.Event) :
  forall st,
    snd (fold_left Draggable.track evs st) =
    match Draggable.last_tracked evs with
    | None => snd st
    | Some ev =>
        match pointer.Kind_ ev with
        | pointer.Press => Draggable.Point_zero
        | _ => f32.Sub (pointer.Position ev)
                       (fst (fold_left Draggable.track evs st))
        end
    end.
Proof.
  induction evs as [| ev evs IH]; intros st; cbn [fold_left Draggable.last_tracked].
  - reflexivity.
  - rewrite IH.
    destruct (Draggable.last_tracked evs) as [x |] eqn:L; [reflexivity |].
    rewrite (track_untracked evs _ L).
    unfold Draggable.tracked, Draggable.track.
    destruct (pointer.Kind_ ev) eqn:K; cbn; rewrite ?K; reflexivity.
Qed.

(** The press position of the Draggable follows the start of its Drag. *)
Lemma draggable_step_start (cfg : Metric) (d : Drag.t) (e : pointer.Event)
  (st : f32.Point * f32.Point) :
  fst st = Drag.start d ->
  fst (fold_left Draggable.track (snd (Drag.handle cfg Both d e)) st)
  = Drag.start (fst (Drag.handle cfg Both d e)).
Proof.
  intros I. unfold Drag.handle.
  destruct (pointer.Kind_ e) eqn:K;
    repeat match goal with
           | |- context [if ?b then _ else _] => destruct b
           end;
    cbn; unfold Draggable.track; cbn; rewrite ?K; cbn; auto.
Qed.

Lemma draggable_loop_start (cfg : Metric) (q : list event.Event) :
  forall (d : Drag.t) (st : f32.Point * f32.Point),
    fst st = Drag.start d ->
    fst (fold_left Draggable.track (snd (Drag.loop cfg Both d q [])) st)
    = Drag.start (fst (Drag.loop cfg Both d q [])).
Proof.
  induction q as [| [e |] q IH]; intros d st I; cbn.
  - exact I.
  - pose proof (draggable_step_start cfg d e st I) as St.
    destruct (Drag.handle cfg Both d e) as [d' out]. cbn [fst snd] in St.
    rewrite drag_loop_acc. cbn [fst snd]. rewrite fold_left_app.
    now apply IH.
  - now apply IH.
Qed.

(** X13. A Draggable whose [click] is the start position of its Drag, as
    in the zero value, keeps it so through [Update]; and [Pos] afterwards
    is decided by the last Press, Drag or Release the gesture handed on in
    this call: unchanged if there is none, zero after a Press, and else the
    position of that event relative to where the drag started. *)
Theorem draggable_pos_is_offset (cfg : Metric) (q : list event.Event)
  (hq : list Draggable.HandleEvent) (d : Draggable.t) :
  Draggable.click d = Drag.start (Draggable.drag d) ->
  let d' := fst (Draggable.Update cfg q hq d) in
  Draggable.click d' = Drag.start (Draggable.drag d') /\
  Draggable.Pos d' =
    match Draggable.last_tracked
            (snd (Drag.Update cfg q Both (Draggable.drag d))) with
    | None => Draggable.Pos d
    | Some ev =>
        match pointer.Kind_ ev with
        | pointer.Press => Draggable.Point_zero
        | _ => f32.Sub (pointer.Position ev) (Drag.start (Draggable.drag d'))
        end
    end.
Proof.
  intros I. unfold Draggable.Update, Drag.Update.
  pose proof (draggable_loop_start cfg q (Draggable.drag d)
                (Draggable.click d, Draggable.pos d) I) as S.
  pose proof (track_last (snd (Drag.loop cfg Both (Draggable.drag d) q []))
                (Draggable.click d, Draggable.pos d)) as P.
  destruct (Drag.loop cfg Both (Draggable.drag d) q []) as [dr evs].
  cbn [fst snd] in *.
  destruct (fold_left Draggable.track evs (Draggable.click d, Draggable.pos d))
    as [click' pos'].
  cbn [fst snd] in *. cbn. split; [exact S |].
  unfold Draggable.Pos. rewrite P, S. reflexivity.
Qed.

(** ** Enum *)

Lemma index_from_some (ks : list Enum.enumKey) (k : string) (st : Enum.enumKey) :
  Enum.index_from ks k = Some st -> Enum.key st = k /\ In k (map Enum.key ks).
Proof.
  induction ks as [| v ks IH]; cbn; [discriminate |].
  destruct (String.eqb_spec (Enum.key v) k) as [E | E].
  - intros [= <-]. auto.
  - intros H. destruct (IH H). auto.
Qed.

Lemma index_from_none (ks : list Enum.enumKey) (k : string) :
  Enum.index_from ks k = None -> ~ In k (map Enum.key ks).
Proof.
  induction ks as [| v ks IH]; cbn; [tauto |].
  destruct (String.eqb_spec (Enum.key v) k) as [E | E]; [discriminate |].
  intros H [F | F]; [contradiction | now apply IH].
Qed.

Lemma index_from_app (ks : list Enum.enumKey) (k : string) (x : Enum.enumKey) :
  Enum.index_from ks k = None ->
  Enum.key x = k ->
  Enum.index_from (ks ++ [x]) k = Some x.
Proof.
  intros N K. induction ks as [| v ks IH]; cbn in *.
  - rewrite K, String.eqb_refl. reflexivity.
  - destruct (String.eqb (Enum.key v) k); [discriminate | now apply IH].
Qed.

Lemma NoDup_snoc (l : list string) (k : string) :
  NoDup l -> ~ In k l -> NoDup (l ++ [k]).
Proof.
  induction l as [| a l IH]; cbn; intros D N.
  - constructor; [tauto | constructor].
  - inversion D as [| ? ? Na Dl]; subst. constructor.
    + rewrite in_app_iff. cbn. intros [F | [F | []]]; [contradiction |].
      subst. tauto.
    + apply IH; tauto.
Qed.

(** The loop over the keys keeps their names and their order. *)
Lemma each_key_names (gtx : Enum.Context) (ks : list Enum.enumKey) :
  forall (i : nat) (sc : Enum.scan),
    map Enum.key (fst (Enum.each_key NameReturn NameSpace gtx i ks sc))
    = map Enum.key ks.
Proof.
  induction ks as [| state ks IH]; intros i sc; cbn; [reflexivity |].
  destruct (Click.Update (Enum.click state) (Enum.click_events gtx i)) as [c evs].
  match goal with
  | |- context [Enum.each_key _ _ _ ?j _ ?x] => specialize (IH j x);
      destruct (Enum.each_key NameReturn NameSpace gtx j ks x) as [rest' sc4]
  end.
  cbn in *. now rewrite IH.
Qed.

Lemma enum_update_names (gtx : Enum.Context) (e : Enum.t) :
  map Enum.key (Enum.keys (fst (fst (Enum.Update NameReturn NameSpace gtx e))))
  = map Enum.key (Enum.keys e).
Proof.
  unfold Enum.Update.
  match goal with
  | |- context [Enum.each_key _ _ _ ?j ?ks ?x] =>
      pose proof (each_key_names gtx ks j x) as N;
      destruct (Enum.each_key NameReturn NameSpace gtx j ks x) as [ks' sc]
  end.
  cbn in *. rewrite N. destruct (Enum.Queue_nil gtx); reflexivity.
Qed.

(** X14. [Enum.Update] keeps the keys an Enum knows, by name and order;
    after [Layout] for the key [k], [index] finds a key named [k], and the
    names are those of before, with [k] added at the end if it was not
    among them: a key is never entered twice. *)
Theorem enum_layout_enters_once (gtx : Enum.Context) (e : Enum.t) (k : string) :
  let names (x : Enum.t) := map Enum.key (Enum.keys x) in
  let e' := Enum.Layout NameReturn NameSpace gtx e k in
  names (fst (fst (Enum.Update NameReturn NameSpace gtx e))) = names e /\
  (exists st, Enum.index e' k = Some st /\ Enum.key st = k) /\
  (In k (names e) -> names e' = names e) /\
  (~ In k (names e) -> names e' = names e ++ [k]) /\
  (NoDup (names e) -> NoDup (names e')).
Proof.
  intros names e'. subst names e'. cbv beta.
  pose proof (enum_update_names gtx e) as U.
  split; [exact U |].
  unfold Enum.Layout, Enum.index.
  destruct (Enum.index_from
              (Enum.keys (fst (fst (Enum.Update NameReturn NameSpace gtx e)))) k)
    as [st |] eqn:I.
  - destruct (index_from_some _ _ _ I) as [K M]. rewrite U in M.
    unfold Enum.index. rewrite U.
    split; [exists st; auto |]. split; [auto |]. split; [tauto | auto].
  - pose proof (index_from_none _ _ I) as M. rewrite U in M.
    cbn [Enum.keys Enum.set_keys]. rewrite map_app, U. cbn [map Enum.key].
    split.
    { eexists. split; [apply index_from_app; [exact I | reflexivity] | reflexivity]. }
    split; [tauto |]. split; [auto |].
    intros D. now apply NoDup_snoc.
Qed.

Lemma choose_among (V0 : string) (names : list string) (k : string)
  (sc : Enum.scan) :
  In k names -> chosen_among V0 names sc ->
  chosen_among V0 names (Enum.choose k sc).
Proof.
  intros M [A B]. unfold Enum.choose.
  destruct (negb _); [| split; assumption].
  split; cbn; [discriminate | auto].
Qed.

Lemma on_click_among (V0 : string) (names : list string) (k : string) (i : nat)
  (evs : list ClickEvent) :
  In k names ->
  forall sc, chosen_among V0 names sc ->
             chosen_among V0 names (fold_left (Enum.on_click k i) evs sc).
Proof.
  intros M. induction evs as [| ev evs IH]; intros sc J; cbn; [exact J |].
  apply IH. unfold Enum.on_click.
  destruct (Kind ev =? KindPress)%N.
  - destruct (pointer.Source_eqb _ _); exact J.
  - destruct (Kind ev =? KindClick)%N; [now apply choose_among | exact J].
Qed.

Lemma on_tag_among (V0 : string) (names : list string) (k : string)
  (evs : list Enum.TagEvent) :
  In k names ->
  forall sc, chosen_among V0 names sc ->
             chosen_among V0 names
               (fold_left (Enum.on_tag NameReturn NameSpace k) evs sc).
Proof.
  intros M. induction evs as [| ev evs IH]; intros sc J; cbn; [exact J |].
  apply IH. unfold Enum.on_tag.
  destruct ev as [[|] | name st |];
    repeat match goal with
           | |- context [if ?b then _ else _] => destruct b
           end;
    try exact J; now apply choose_among.
Qed.

Lemma each_key_among (V0 : string) (names : list string) (gtx : Enum.Context)
  (ks : list Enum.enumKey) :
  incl (map Enum.key ks) names ->
  forall (i : nat) (sc : Enum.scan),
    chosen_among V0 names sc ->
    chosen_among V0 names
      (snd (Enum.each_key NameReturn NameSpace gtx i ks sc)).
Proof.
  induction ks as [| state ks IH]; intros I i sc J; cbn; [exact J |].
  assert (M : In (Enum.key state) names) by (apply I; now left).
  assert (I' : incl (map Enum.key ks) names)
    by (intros x Hx; apply I; now right).
  destruct (Click.Update (Enum.click state) (Enum.click_events gtx i)) as [c evs].
  match goal with
  | |- context [Enum.each_key _ _ _ ?j _ ?x] =>
      assert (J3 : chosen_among V0 names x);
      [| specialize (IH I' j x J3);
         destruct (Enum.each_key NameReturn NameSpace gtx j ks x) as [rest' sc4];
         exact IH]
  end.
  pose proof (on_tag_among V0 names (Enum.key state) (Enum.tag_events gtx i) M _
                (on_click_among V0 names (Enum.key state) i evs M sc J)) as J2.
  destruct (Click.Hovered c); exact J2.
Qed.

(** X15. When [Enum.Update] reports no change, [Value] is what it was; when
    it reports one, [Value] is the name of one of the keys.  The report
    does not say that [Value] differs from before: two keys tapped in one
    frame, the second holding the value, give a change and the old
    value. *)
Theorem enum_changed_names_a_key (gtx : Enum.Context) (e : Enum.t) :
  let r := Enum.Update NameReturn NameSpace gtx e in
  (snd (fst r) = false -> Enum.Value (fst (fst r)) = Enum.Value e) /\
  (snd (fst r) = true ->
   In (Enum.Value (fst (fst r))) (map Enum.key (Enum.keys e))) /\
  (let r0 := Enum.Update NameReturn NameSpace WidgetExamples.all_tapped
               WidgetExamples.a_b in
   snd (fst r0) = true /\
   Enum.Value (fst (fst r0)) = Enum.Value WidgetExamples.a_b).
Proof.
  cbv zeta.
  assert (G : (snd (fst (Enum.Update NameReturn NameSpace gtx e)) = false ->
               Enum.Value (fst (fst (Enum.Update NameReturn NameSpace gtx e)))
               = Enum.Value e) /\
              (snd (fst (Enum.Update NameReturn NameSpace gtx e)) = true ->
               In (Enum.Value (fst (fst (Enum.Update NameReturn NameSpace gtx e))))
                  (map Enum.key (Enum.keys e)))).
  { unfold Enum.Update.
    set (e2 := Enum.set_hover _ _ false).
    assert (K : Enum.keys e2 = Enum.keys e)
      by (subst e2; destruct (Enum.Queue_nil gtx); reflexivity).
    assert (V : Enum.Value e2 = Enum.Value e)
      by (subst e2; destruct (Enum.Queue_nil gtx); reflexivity).
    assert (I : incl (map Enum.key (Enum.keys e2)) (map Enum.key (Enum.keys e)))
      by (rewrite K; apply incl_refl).
    assert (J0 : chosen_among (Enum.Value e) (map Enum.key (Enum.keys e))
                   {| Enum.en := e2; Enum.changed := false; Enum.focus_ops := [] |})
      by (split; cbn; [intros _; exact V | discriminate]).
    pose proof (each_key_among _ _ gtx (Enum.keys e2) I 0%nat _ J0) as J.
    destruct (Enum.each_key NameReturn NameSpace gtx 0 (Enum.keys e2) _)
      as [ks sc].
    exact J. }
  destruct G as [A B].
  split; [exact A |]. split; [exact B |]. split; reflexivity.
Qed.

Lemma on_click_hover (k : string) (i : nat) (evs : list ClickEvent) :
  forall sc,
    Enum.hovered (Enum.en (fold_left (Enum.on_click k i) evs sc))
    = Enum.hovered (Enum.en sc) /\
    Enum.hovering (Enum.en (fold_left (Enum.on_click k i) evs sc))
    = Enum.hovering (Enum.en sc).
Proof.
  induction evs as [| ev evs IH]; intros sc; cbn; [auto |].
  destruct (IH (Enum.on_click k i sc ev)) as [-> ->].
  unfold Enum.on_click, Enum.choose.
  repeat match goal with
         | |- context [if ?b then _ else _] => destruct b
         end; auto.
Qed.

Lemma on_tag_hover (k : string) (evs : list Enum.TagEvent) :
  forall sc,
    Enum.hovered (Enum.en (fold_left (Enum.on_tag NameReturn NameSpace k) evs sc))
    = Enum.hovered (Enum.en sc) /\
    Enum.hovering (Enum.en (fold_left (Enum.on_tag NameReturn NameSpace k) evs sc))
    = Enum.hovering (Enum.en sc).
Proof.
  induction evs as [| ev evs IH]; intros sc; cbn; [auto |].
  destruct (IH (Enum.on_tag NameReturn NameSpace k sc ev)) as [-> ->].
  unfold Enum.on_tag, Enum.choose.
  destruct ev as [[|] | name st |];
    repeat match goal with
           | |- context [if ?b then _ else _] => destruct b
           end; auto.
Qed.

Lemma each_key_hover (gtx : Enum.Context) (ks : list Enum.enumKey) :
  forall (i : nat) (sc : Enum.scan),
    let r := Enum.each_key NameReturn NameSpace gtx i ks sc in
    let over (st : Enum.enumKey) := Click.Hovered (Enum.click st) in
    Enum.hovering (Enum.en (snd r))
    = Enum.hovering (Enum.en sc) || existsb over (fst r) /\
    (existsb over (fst r) = true ->
     exists st, In st (fst r) /\ Enum.key st = Enum.hovered (Enum.en (snd r)) /\
                over st = true) /\
    (existsb over (fst r) = false ->
     Enum.hovered (Enum.en (snd r)) = Enum.hovered (Enum.en sc)).
Proof.
  induction ks as [| state ks IH]; intros i sc; cbn zeta.
  - cbn. rewrite orb_false_r.
    split; [reflexivity | split; [discriminate | reflexivity]].
  - cbn [Enum.each_key].
    destruct (Click.Update (Enum.click state) (Enum.click_events gtx i)) as [c evs].
    destruct (on_tag_hover (Enum.key state) (Enum.tag_events gtx i)
                (fold_left (Enum.on_click (Enum.key state) i) evs sc)) as [T1 T2].
    destruct (on_click_hover (Enum.key state) i evs sc) as [C1 C2].
    rewrite C1 in T1. rewrite C2 in T2.
    set (sc2 := fold_left (Enum.on_tag NameReturn NameSpace (Enum.key state))
                  (Enum.tag_events gtx i) _) in *.
    match goal with
    | |- context [Enum.each_key _ _ _ ?j _ ?x] =>
        specialize (IH j x); cbv zeta in IH;
        destruct (Enum.each_key NameReturn NameSpace gtx j ks x) as [rest' sc4]
    end.
    cbn [fst snd existsb Enum.click] in *.
    destruct IH as (I1 & I2 & I3).
    destruct (Click.Hovered c) eqn:Hc; cbn [orb Enum.en Enum.set_hover
      Enum.hovering Enum.hovered] in *.
    + rewrite I1. rewrite orb_true_r. split; [reflexivity |].
      split; [| discriminate]. intros _.
      destruct (existsb (fun st => Click.Hovered (Enum.click st)) rest') eqn:X.
      * destruct (I2 eq_refl) as (st & M & K & O). exists st. cbn. auto.
      * eexists. split; [left; reflexivity |]. cbn. rewrite (I3 eq_refl). auto.
    + rewrite I1, T2. split; [reflexivity |]. split.
      * intros X. destruct (I2 X) as (st & M & K & O). exists st. cbn. auto.
      * intros X. rewrite (I3 X). exact T1.
Qed.

(** X16. What [Hovered] reports after [Enum.Update]: hovering is reported
    exactly when the click gesture of one of the keys is hovered, the key
    reported then is such a key, and without one the key reported is the
    one of before. *)
Theorem enum_hover_follows_keys (gtx : Enum.Context) (e : Enum.t) :
  let e' := fst (fst (Enum.Update NameReturn NameSpace gtx e)) in
  let over (st : Enum.enumKey) := Click.Hovered (Enum.click st) in
  snd (Enum.Hovered e') = existsb over (Enum.keys e') /\
  (snd (Enum.Hovered e') = true ->
   exists st, In st (Enum.keys e') /\ Enum.key st = fst (Enum.Hovered e') /\
              over st = true) /\
  (snd (Enum.Hovered e') = false ->
   fst (Enum.Hovered e') = fst (Enum.Hovered e)).
Proof.
  cbv zeta. unfold Enum.Update, Enum.Hovered.
  set (e2 := Enum.set_hover _ _ false).
  assert (H2 : Enum.hovered e2 = Enum.hovered e)
    by (subst e2; destruct (Enum.Queue_nil gtx); reflexivity).
  pose proof (each_key_hover gtx (Enum.keys e2) 0%nat
                {| Enum.en := e2; Enum.changed := false; Enum.focus_ops := [] |})
    as J.
  cbv zeta in J.
  destruct (Enum.each_key NameReturn NameSpace gtx 0 (Enum.keys e2) _) as [ks sc].
  cbn [fst snd Enum.en Enum.keys Enum.set_keys Enum.hovering Enum.hovered] in *.
  destruct J as (J1 & J2 & J3).
  assert (F : Enum.hovering e2 = false) by reflexivity.
  rewrite F in J1. cbn [orb] in J1.
  split; [exact J1 |]. split.
  - intros X. apply J2. now rewrite <- J1.
  - intros X. rewrite J3, H2; [reflexivity | now rewrite <- J1].
Qed.

Lemma each_key_idle (gtx : Enum.Context) (ks : list Enum.enumKey) :
  (forall i, Enum.click_events gtx i = []) ->
  (forall i, Enum.tag_events gtx i = []) ->
  forall (i : nat) (sc : Enum.scan),
    let r := Enum.each_key NameReturn NameSpace gtx i ks sc in
    fst r = ks /\
    Enum.changed (snd r) = Enum.changed sc /\
    Enum.focus_ops (snd r) = Enum.focus_ops sc /\
    Enum.Value (Enum.en (snd r)) = Enum.Value (Enum.en sc) /\
    Enum.focus (Enum.en (snd r)) = Enum.focus (Enum.en sc) /\
    Enum.focused (Enum.en (snd r)) = Enum.focused (Enum.en sc).
Proof.
  intros NC NT. induction ks as [| state ks IH]; intros i sc; cbv zeta.
  - cbn. auto 10.
  - cbn [Enum.each_key]. rewrite NC, NT. cbn [Click.Update Click.loop fold_left].
    match goal with
    | |- context [Enum.each_key _ _ _ ?j _ ?x] =>
        specialize (IH j x); cbv zeta in IH;
        destruct (Enum.each_key NameReturn NameSpace gtx j ks x) as [rest' sc4]
    end.
    cbn [fst snd] in *. destruct IH as (-> & -> & -> & -> & -> & ->).
    destruct state as [k c]. cbn [Enum.key Enum.click].
    destruct (Click.Hovered c); cbn; auto 10.
Qed.

(** X17. In a frame whose context hands out no events, as one without a
    queue does, [Enum.Update] reports no change and asks for no focus;
    [Value], the keys with their click gestures and the focused key stay
    as they are, and the Enum stays focused only if the context has a
    queue. *)
Theorem enum_without_events (gtx : Enum.Context) (e : Enum.t) :
  (forall i, Enum.click_events gtx i = []) ->
  (forall i, Enum.tag_events gtx i = []) ->
  let r := Enum.Update NameReturn NameSpace gtx e in
  snd (fst r) = false /\
  snd r = [] /\
  Enum.Value (fst (fst r)) = Enum.Value e /\
  Enum.keys (fst (fst r)) = Enum.keys e /\
  Enum.Focused (fst (fst r))
  = (Enum.focus e, Enum.focused e && negb (Enum.Queue_nil gtx)).
Proof.
  intros NC NT. cbv zeta. unfold Enum.Update, Enum.Focused.
  set (e2 := Enum.set_hover _ _ false).
  pose proof (each_key_idle gtx (Enum.keys e2) NC NT 0%nat
                {| Enum.en := e2; Enum.changed := false; Enum.focus_ops := [] |})
    as J.
  cbv zeta in J.
  destruct (Enum.each_key NameReturn NameSpace gtx 0 (Enum.keys e2) _) as [ks sc].
  cbn [fst snd Enum.en Enum.changed Enum.focus_ops Enum.keys Enum.set_keys
       Enum.Value Enum.focus Enum.focused] in *.
  destruct J as (-> & -> & -> & -> & -> & ->).
  subst e2. destruct (Enum.Queue_nil gtx); cbn; rewrite ?andb_true_r, ?andb_false_r;
    auto 10.
Qed.

Lemma on_click_value (k : string) (i : nat) (evs : list ClickEvent) :
  forall sc,
    Enum.Value (Enum.en (fold_left (Enum.on_click k i) evs sc))
    = if clicked evs then k else Enum.Value (Enum.en sc).
Proof.
  induction evs as [| ev evs IH]; intros sc; cbn; [reflexivity |].
  rewrite IH. unfold Enum.on_click, Enum.choose.
  destruct (N.eqb_spec (Kind ev) KindPress) as [P | P].
  - rewrite P. cbn. destruct (pointer.Source_eqb _ _); reflexivity.
  - destruct (Kind ev =? KindClick)%N; cbn; [| reflexivity].
    destruct (clicked evs); [reflexivity |].
    destruct (String.eqb_spec k (Enum.Value (Enum.en sc))); cbn; auto.
Qed.

Lemma on_tag_value (k : string) (evs : list Enum.TagEvent) :
  forallb (fun ev => negb (is_key_event ev)) evs = true ->
  forall sc,
    Enum.Value (Enum.en (fold_left (Enum.on_tag NameReturn NameSpace k) evs sc))
    = Enum.Value (Enum.en sc).
Proof.
  induction evs as [| ev evs IH]; cbn; [reflexivity |].
  intros F sc. apply andb_prop in F. destruct F as [F1 F2].
  rewrite (IH F2). unfold Enum.on_tag.
  destruct ev as [[|] | name st |]; try discriminate F1; cbn; try reflexivity.
  destruct (String.eqb k _); reflexivity.
Qed.

(** X18. Among the keys tapped in one frame the order of the keys decides,
    not the order of the taps: when no key of the keyboard is reported,
    [Value] after [Enum.Update] is the name of the last key of [e.keys]
    whose click gesture reports a click, and the old value without one. *)
Theorem enum_last_key_wins (gtx : Enum.Context) (e : Enum.t) :
  (forall i, forallb (fun ev => negb (is_key_event ev)) (Enum.tag_events gtx i)
             = true) ->
  Enum.Value (fst (fst (Enum.Update NameReturn NameSpace gtx e)))
  = last_clicked gtx 0 (Enum.keys e) (Enum.Value e).
Proof.
  intros NK.
  assert (L : forall ks i sc,
             Enum.Value (Enum.en (snd (Enum.each_key NameReturn NameSpace
                                         gtx i ks sc)))
             = last_clicked gtx i ks (Enum.Value (Enum.en sc))).
  { induction ks as [| state ks IH]; intros i sc;
      cbn [Enum.each_key last_clicked]; [reflexivity |].
    pose proof (on_click_value (Enum.key state) i
                  (snd (Click.Update (Enum.click state) (Enum.click_events gtx i)))
                  sc) as C.
    destruct (Click.Update (Enum.click state) (Enum.click_events gtx i)) as [c evs].
    cbn [snd] in C.
    match goal with
    | |- context [Enum.each_key _ _ _ ?j _ ?x] =>
        specialize (IH j x);
        destruct (Enum.each_key NameReturn NameSpace gtx j ks x) as [rest' sc4]
    end.
    cbn [snd] in *. rewrite IH. f_equal.
    pose proof (on_tag_value (Enum.key state) _ (NK i)
                  (fold_left (Enum.on_click (Enum.key state) i) evs sc)) as T.
    rewrite C in T.
    destruct (Click.Hovered c); exact T. }
  unfold Enum.Update.
  set (e2 := Enum.set_hover _ _ false).
  specialize (L (Enum.keys e2) 0%nat
                {| Enum.en := e2; Enum.changed := false; Enum.focus_ops := [] |}).
  destruct (Enum.each_key NameReturn NameSpace gtx 0 (Enum.keys e2) _) as [ks sc].
  cbn [fst snd Enum.en Enum.Value Enum.set_keys] in *. rewrite L.
  subst e2. destruct (Enum.Queue_nil gtx); reflexivity.
Qed.

End Widgets.

(** * Instances *)

Lemma hover_single_pointer_witness :
  let h := Hover.zero in
  let q := [ event.Pointer (Examples.touch pointer.Enter 1%N 0);
             event.Other;
             event.Pointer (Examples.touch pointer.Leave 1%N 0);
             event.Pointer (Examples.touch pointer.Enter 1%N 0) ] in
  (Hover.entered h = true -> Hover.pid h = 1%N) /\
  Forall (fun e => pointer.PointerID e = 1%N) (pointer_events q) /\
  snd (Hover.Update h q) = true.
Proof.
  intros h q.
  assert (h1 : Hover.entered h = true -> Hover.pid h = 1%N)
    by (intros X; discriminate X).
  assert (h2 : Forall (fun e => pointer.PointerID e = 1%N) (pointer_events q))
    by (repeat constructor).
  refine (conj h1 (conj h2 _)).
  exact (eq_trans (hover_single_pointer h q 1%N h1 h2) eq_refl).
Defined.

Lemma hover_keeps_owner_witness :
  let h := WidgetExamples.entered_by_1 in
  let q := [ event.Pointer (Examples.touch pointer.Leave 2%N 0);
             event.Pointer (Examples.touch pointer.Enter 2%N 0);
             event.Pointer (Examples.touch pointer.Cancel 3%N 0) ] in
  Hover.entered h = true /\
  Forall (fun e => pointer.Kind_ e = pointer.Leave \/
                   pointer.Kind_ e = pointer.Cancel ->
                   pointer.PointerID e <> Hover.pid h)
         (pointer_events q) /\
  Hover.Update h q = (h, true).
Proof.
  intros h q.
  assert (h1 : Hover.entered h = true) by reflexivity.
  assert (h2 : Forall (fun e => pointer.Kind_ e = pointer.Leave \/
                                pointer.Kind_ e = pointer.Cancel ->
                                pointer.PointerID e <> Hover.pid h)
                      (pointer_events q))
    by (repeat constructor; intros _ X; discriminate X).
  exact (conj h1 (conj h2 (hover_keeps_owner h q h1 h2))).
Defined.

Lemma scroll_total_is_net_movement_witness :
  let s := Examples.scrolling 100 in
  let q := [ event.Pointer
               (Examples.touch_at pointer.Drag 1%N pointer.Grabbed (Examples.pt 90 0));
             event.Pointer
               (Examples.touch_at pointer.Drag 1%N pointer.Grabbed (Examples.pt 70 0));
             event.Pointer
               (Examples.touch_at pointer.Release 1%N pointer.Grabbed
                  (Examples.pt 70 0)) ] in
  GoInt.in_range 0 /\
  Forall (fun e => pointer.Kind_ e <> pointer.Press /\
                   pointer.Kind_ e <> pointer.Scroll) (pointer_events q) /\
  snd (Scroll.loop (ext := Examples.plain) 1 0 s q 0) = 30.
Proof.
  intros s q.
  assert (h1 : GoInt.in_range 0)
    by (unfold GoInt.in_range, GoInt.min_int, GoInt.max_int; lia).
  assert (h2 : Forall (fun e => pointer.Kind_ e <> pointer.Press /\
                                pointer.Kind_ e <> pointer.Scroll)
                      (pointer_events q))
    by (repeat constructor; discriminate).
  refine (conj h1 (conj h2 _)).
  destruct (scroll_total_is_net_movement (ext := Examples.plain) 1 0 s q 0 h1 h2)
    as [H _].
  exact (eq_trans H eq_refl).
Defined.

Lemma scroll_needs_touch_witness :
  let s := Examples.at_rest in
  let q := [ event.Pointer (WidgetExamples.mouse pointer.Press (Examples.pt 10 10));
             event.Pointer (WidgetExamples.mouse pointer.Drag (Examples.pt 90 10));
             event.Pointer (WidgetExamples.mouse pointer.Release (Examples.pt 90 10)) ] in
  String.eqb (GOOS (Externals := Examples.plain)) "android" = false /\
  Scroll.dragging s = false /\
  Forall (fun e => pointer.Source_ e <> pointer.Touch /\
                   pointer.Kind_ e <> pointer.Scroll) (pointer_events q) /\
  snd (Scroll.loop (ext := Examples.plain) 1 0 s q 0) = 0 /\
  Scroll.dragging (fst (Scroll.loop (ext := Examples.plain) 1 0 s q 0)) = false.
Proof.
  intros s q.
  assert (h1 : String.eqb (GOOS (Externals := Examples.plain)) "android" = false)
    by reflexivity.
  assert (h2 : Scroll.dragging s = false) by reflexivity.
  assert (h3 : Forall (fun e => pointer.Source_ e <> pointer.Touch /\
                                pointer.Kind_ e <> pointer.Scroll)
                      (pointer_events q))
    by (repeat constructor; discriminate).
  refine (conj h1 (conj h2 (conj h3 _))).
  destruct (scroll_needs_touch (ext := Examples.plain) 1 0 s q h1 h2 h3)
    as (T & D & _).
  exact (conj T D).
Defined.

Lemma scroll_wheel_needs_an_axis_witness :
  let s := Scroll.set_axis Examples.at_rest Both in
  let q := [ event.Pointer (Examples.wheel (F32.of_int 5));
             event.Pointer (Examples.wheel Examples.three_tenths) ] in
  Scroll.axis s <> Horizontal /\
  Scroll.axis s <> Vertical /\
  F32.trunc (Scroll.scroll s) = Some 0 /\
  GoInt.in_range 0 /\
  Forall (fun e => pointer.Kind_ e = pointer.Scroll) (pointer_events q) /\
  Scroll.loop (ext := Examples.plain) 1 0 s q 0 = (s, 0).
Proof.
  intros s q.
  assert (h1 : Scroll.axis s <> Horizontal) by discriminate.
  assert (h2 : Scroll.axis s <> Vertical) by discriminate.
  assert (h3 : F32.trunc (Scroll.scroll s) = Some 0) by reflexivity.
  assert (h4 : GoInt.in_range 0)
    by (unfold GoInt.in_range, GoInt.min_int, GoInt.max_int; lia).
  assert (h5 : Forall (fun e => pointer.Kind_ e = pointer.Scroll) (pointer_events q))
    by (repeat constructor).
  exact (conj h1 (conj h2 (conj h3 (conj h4 (conj h5
    (scroll_wheel_needs_an_axis (ext := Examples.plain) 1 0 s q 0 h1 h2 h3 h4 h5)))))).
Defined.

Lemma unregistered_kinds_are_ignored_witness :
  let e := Examples.touch pointer.Move 1%N 0 in
  pointer.Kind_ e <> pointer.Cancel /\
  Click.handle (ext := Examples.plain) Examples.pressed_left e
  = (Examples.pressed_left, []) /\
  Drag.handle (ext := Examples.plain) 1 Both Examples.dragging_from_10_10 e
  = (Examples.dragging_from_10_10, [e]) /\
  Scroll.handle (ext := Examples.plain) 1 0 (Examples.scrolling 100) e
  = (Examples.scrolling 100, 0) /\
  Hover.handle WidgetExamples.entered_by_1 e = WidgetExamples.entered_by_1.
Proof.
  intros e.
  assert (h1 : pointer.Kind_ e <> pointer.Cancel) by discriminate.
  refine (conj h1 _).
  destruct (unregistered_kinds_are_ignored (ext := Examples.plain) 1 0 Both
              Examples.pressed_left Examples.dragging_from_10_10
              (Examples.scrolling 100) WidgetExamples.entered_by_1 e h1)
    as (A & B & C & D).
  refine (conj (A _) (conj (B _) (conj (C _) (D _))));
    cbn; intuition discriminate.
Defined.

Lemma draggable_pos_is_offset_witness :
  let d := Draggable.zero in
  let q := [ event.Pointer
               (Examples.touch_at pointer.Press 1%N pointer.Normal (Examples.pt 10 10));
             event.Pointer
               (Examples.touch_at pointer.Drag 1%N pointer.Normal (Examples.pt 12 15)) ] in
  let d' := fst (Draggable.Update (ext := Examples.plain) 1 q [] d) in
  Draggable.click d = Drag.start (Draggable.drag d) /\
  Draggable.click d' = Examples.pt 10 10 /\
  Draggable.Pos d' = Examples.pt 2 5.
Proof.
  intros d q d'.
  assert (h1 : Draggable.click d = Drag.start (Draggable.drag d)) by reflexivity.
  refine (conj h1 _).
  destruct (draggable_pos_is_offset (ext := Examples.plain) 1 q [] d h1) as [C P].
  split; [exact (eq_trans C eq_refl) | exact (eq_trans P eq_refl)].
Defined.

Lemma enum_without_events_witness :
  let gtx := WidgetExamples.disabled in
  let e := WidgetExamples.a_b in
  let r := Enum.Update (ext := Examples.plain) "Return" "Space" gtx e in
  (forall i, Enum.click_events gtx i = []) /\
  (forall i, Enum.tag_events gtx i = []) /\
  snd (fst r) = false /\
  Enum.Value (fst (fst r)) = "b"%string /\
  Enum.Focused (fst (fst r)) = ("a"%string, false).
Proof.
  intros gtx e r.
  assert (h1 : forall i, Enum.click_events gtx i = []) by (intros i; reflexivity).
  assert (h2 : forall i, Enum.tag_events gtx i = []) by (intros i; reflexivity).
  refine (conj h1 (conj h2 _)).
  destruct (enum_without_events (ext := Examples.plain) "Return" "Space" gtx e h1 h2)
    as (A & _ & V & _ & F).
  exact (conj A (conj V F)).
Defined.

Lemma enum_last_key_wins_witness :
  let gtx := WidgetExamples.all_tapped in
  let e := Enum.set_Value WidgetExamples.a_b "a" in
  (forall i, forallb (fun ev => negb (is_key_event ev)) (Enum.tag_events gtx i)
             = true) /\
  Enum.Value (fst (fst (Enum.Update (ext := Examples.plain) "Return" "Space" gtx e)))
  = "b"%string.
Proof.
  intros gtx e.
  assert (h1 : forall i, forallb (fun ev => negb (is_key_event ev))
                           (Enum.tag_events gtx i) = true)
    by (intros i; reflexivity).
  refine (conj h1 _).
  exact (eq_trans (enum_last_key_wins (ext := Examples.plain) "Return" "Space"
                     gtx e h1) eq_refl).
Defined.
